(** * ai-issue-spotter: the rrweb key-moment engine and its PostHog join

    A shallow embedding of [src/rrweb.ts]: the loader [loadRRwebData] with
    its event processor [processRRwebEvent], the two-pass pattern scan
    [extractKeyMoments] and the temporal join [syncWithPostHogEvents].

    Conventions.  JavaScript numbers that carry milliseconds, pixels or
    counts are integers ([Z], or [nat] for an array length).  An optional
    key of an object is an [option]; [None] stands for [undefined] (and for
    [null] where the program does not tell them apart).  Truthiness of such
    a key is spelled out by [truthy_str] and [truthy_num].  The only place
    where the program computes with a fraction, the relevance score, is
    modelled on IEEE binary64 through [SpecFloat]. *)

From Stdlib Require Import ZArith List String Ascii Bool Lia.
From Stdlib Require Import Permutation Sorted.
From Stdlib Require Import DecimalString DecimalZ.
From Stdlib Require Import Floats.SpecFloat.
Import ListNotations.

Open Scope string_scope.
Open Scope list_scope.
Open Scope Z_scope.

(* ================================================================== *)
(** ** JavaScript helpers *)

(** [s] as a condition: the empty string and [undefined] are falsy. *)
Definition truthy_str (o : option string) : bool :=
  match o with
  | Some s => negb (s =? "")%string
  | None => false
  end.

(** [n] as a condition: [0] and [undefined] are falsy. *)
Definition truthy_num (o : option Z) : bool :=
  match o with
  | Some n => negb (n =? 0)
  | None => false
  end.

(** [n || 0]. *)
Definition num_or0 (o : option Z) : Z :=
  match o with
  | Some n => n
  | None => 0
  end.

(** [a || b] on optional strings. *)
Definition str_or (a b : option string) : option string :=
  if truthy_str a then a else b.

(** [a === 'lit'] for an optional string key. *)
Definition str_is (o : option string) (lit : string) : bool :=
  match o with
  | Some s => (s =? lit)%string
  | None => false
  end.

(** [s.includes(sub)]. *)
Definition includes (s sub : string) : bool :=
  match String.index 0 sub s with
  | Some _ => true
  | None => false
  end.

(** [attributes[key]] on a [Record<string, string>]. *)
Fixpoint attr (attributes : list (string * string)) (key : string)
  : option string :=
  match attributes with
  | [] => None
  | (k, v) :: rest => if (k =? key)%string then Some v else attr rest key
  end.

(** [arr.slice(start, end)] for [0 <= start]. *)
Definition slice {A} (start stop : nat) (arr : list A) : list A :=
  firstn (stop - start) (skipn start arr).

(** [arr.slice(-n)]: the last [n] entries. *)
Definition slice_last {A} (n : nat) (arr : list A) : list A :=
  skipn (List.length arr - n) arr.

(** [arr.sort(cmp)].  The sort of ECMAScript is stable, so with a
    comparator that orders by a key its result is the stable insertion
    of every element, whatever the engine's algorithm. *)
Fixpoint sort_insert {A} (cmp : A -> A -> Z) (x : A) (l : list A) : list A :=
  match l with
  | [] => [x]
  | y :: rest =>
      if cmp x y <=? 0 then x :: l else y :: sort_insert cmp x rest
  end.

Fixpoint sort {A} (cmp : A -> A -> Z) (l : list A) : list A :=
  match l with
  | [] => []
  | x :: rest => sort_insert cmp x (sort cmp rest)
  end.

(** A loop that threads a state and pushes moments: [step] returns the
    new state and what this iteration pushed, in push order. *)
Fixpoint scan {S A M} (step : S -> A -> S * list M) (st : S) (l : list A)
  : S * list M :=
  match l with
  | [] => (st, [])
  | a :: rest =>
      let (st1, out1) := step st a in
      let (st2, out2) := scan step st1 rest in
      (st2, out1 ++ out2)
  end.

(** [arr.map((x, i) => ...)]: the elements with their indices. *)
Definition indexed {A} (l : list A) : list (nat * A) :=
  combine (seq 0 (List.length l)) l.

(* ================================================================== *)
(** ** Data model *)

(** A sampled pointer position inside a MouseMove payload. *)
Record Pos := mkPos { pos_x : Z; pos_y : Z }.

(** The open-ended keys of a payload ([data: any]) that end up in
    [details: Record<string, any>] and are read again by a detector. *)
Record Details := mkDetails {
  incrementalType : option string;
  interactionType : option string;
  inputType : option string;
  value : option string;
  href : option string;
  userAgent : option string;
  width : option Z;
  height : option Z;
  positions : option (list Pos);
  key_x : option Z;               (* the key [x] *)
  error : option string
}.

Definition no_details : Details :=
  mkDetails None None None None None None None None None None None.

(** [event.data.target]. *)
Record Target := mkTarget {
  tagName : string;
  target_id : option string;
  target_className : option string;
  target_textContent : option string;
  target_attributes : option (list (string * string));
  target_width : option Z;
  target_height : option Z
}.

(** [event.data] of a raw record: the keys the processor reads by name
    ([source], [type], [target], [y], [text]) next to the open keys. *)
Record RawData := mkRawData {
  source : option Z;
  data_type : option Z;
  target : option Target;
  data_y : option Z;
  text : option string;
  keys : Details
}.

(** [interface RRwebEvent]; [data] may be missing. *)
Record RRwebEvent := mkRRwebEvent {
  raw_type : Z;
  raw_timestamp : Z;
  data : option RawData
}.

Record Position := mkPosition {
  x : option Z;
  y : option Z;
  p_width : option Z;
  p_height : option Z
}.

Record Element := mkElement {
  tag : string;
  id : option string;
  className : option string;
  textContent : option string;
  attributes : option (list (string * string));
  position : option Position
}.

(** [interface ProcessedRRwebEvent]. *)
Record ProcessedRRwebEvent := mkEvent {
  timestamp : Z;
  type : string;
  details : Details;
  url : option string;
  element : option Element
}.

Record Metadata := mkMetadata {
  startTime : Z;
  endTime : Z;
  duration : Z;
  meta_url : string;
  meta_userAgent : string
}.

(** [interface ProcessedRRwebData]. *)
Record ProcessedRRwebData := mkSession {
  sessionId : string;
  events : list ProcessedRRwebEvent;
  metadata : Metadata
}.

(* ================================================================== *)
(** ** Enumerations and their name tables *)

Definition RRwebEventType_IncrementalSnapshot : Z := 3.
Definition RRwebEventType_Meta : Z := 4.
Definition RRwebEventType_Custom : Z := 5.

Definition IncrementalSnapshotType_MouseInteraction : Z := 2.
Definition IncrementalSnapshotType_Input : Z := 5.

Definition eventTypeMap (t : Z) : option string :=
  match t with
  | 0 => Some "DomContentLoaded"
  | 1 => Some "Load"
  | 2 => Some "FullSnapshot"
  | 3 => Some "IncrementalSnapshot"
  | 4 => Some "Meta"
  | 5 => Some "Custom"
  | _ => None
  end.

Definition incrementalTypeMap (s : Z) : option string :=
  match s with
  | 0 => Some "Mutation"
  | 1 => Some "MouseMove"
  | 2 => Some "MouseInteraction"
  | 3 => Some "Scroll"
  | 4 => Some "ViewportResize"
  | 5 => Some "Input"
  | 6 => Some "TouchMove"
  | 7 => Some "MediaInteraction"
  | 8 => Some "StyleSheetRule"
  | 9 => Some "CanvasMutation"
  | 10 => Some "Font"
  | 11 => Some "Selection"
  | _ => None
  end.

Definition mouseInteractionMap (t : Z) : option string :=
  match t with
  | 0 => Some "MouseDown"
  | 1 => Some "MouseUp"
  | 2 => Some "Click"
  | 3 => Some "ContextMenu"
  | 4 => Some "DblClick"
  | 5 => Some "Focus"
  | 6 => Some "Blur"
  | 7 => Some "TouchStart"
  | 8 => Some "TouchMove_Departed"
  | 9 => Some "TouchEnd"
  | _ => None
  end.

(** [table[key] || 'Unknown'], the key itself possibly [undefined]. *)
Definition name_or_unknown (table : Z -> option string) (key : option Z)
  : string :=
  match key with
  | Some k => match table k with Some s => s | None => "Unknown" end
  | None => "Unknown"
  end.

(* ================================================================== *)
(** ** Exceptions *)

Inductive Exn := TypeError (msg : string).

(** The outcome of evaluating a piece of code that may throw. *)
Inductive Completion (A : Type) :=
| Normal (a : A)
| Throw (e : Exn).
Arguments Normal {A} a.
Arguments Throw {A} e.

Definition bind {A B} (c : Completion A) (k : A -> Completion B)
  : Completion B :=
  match c with
  | Normal a => k a
  | Throw e => Throw e
  end.

Notation "x <- c ;; k" := (bind c (fun x => k))
  (at level 61, c at next level, right associativity).

(** [arr.map(f)] where [f] may throw: the first throw ends the map. *)
Fixpoint mapM {A B} (f : A -> Completion B) (l : list A)
  : Completion (list B) :=
  match l with
  | [] => Normal []
  | a :: rest =>
      b <- f a ;;
      bs <- mapM f rest ;;
      Normal (b :: bs)
  end.

(** Reading a key of [event.data]: a [TypeError] when [data] is missing. *)
Definition data_of (event : RRwebEvent) : Completion RawData :=
  match data event with
  | Some d => Normal d
  | None => Throw (TypeError "Cannot read properties of undefined")
  end.

(* ================================================================== *)
(** ** processRRwebEvent *)

Definition element_of_mouse_target (d : RawData) (t : Target) : Element :=
  mkElement (tagName t) (target_id t) (target_className t)
    (target_textContent t) (target_attributes t)
    (Some (mkPosition (key_x (keys d)) (data_y d)
             (target_width t) (target_height t))).

Definition element_of_input_target (t : Target) : Element :=
  mkElement (tagName t) (target_id t) (target_className t)
    None (target_attributes t) None.

(** [{ ...event.data }]; spreading [undefined] gives the empty object. *)
Definition spread (d : option RawData) : Details :=
  match d with
  | Some d => keys d
  | None => no_details
  end.

Definition processRRwebEvent (event : RRwebEvent)
  : Completion ProcessedRRwebEvent :=
  let eventType := name_or_unknown eventTypeMap (Some (raw_type event)) in
  if raw_type event =? RRwebEventType_IncrementalSnapshot then
    d <- data_of event ;;
    let incrementalType := name_or_unknown incrementalTypeMap (source d) in
    let details0 :=
      mkDetails (Some incrementalType) None None None None None None None
        None None None in
    if match source d with
       | Some s => s =? IncrementalSnapshotType_MouseInteraction
       | None => false
       end
    then
      let details1 :=
        mkDetails (Some incrementalType)
          (Some (name_or_unknown mouseInteractionMap (data_type d)))
          None None None None None None None None None in
      Normal (mkEvent (raw_timestamp event) eventType details1 None
                (option_map (element_of_mouse_target d) (target d)))
    else if match source d with
            | Some s => s =? IncrementalSnapshotType_Input
            | None => false
            end
    then
      let details1 :=
        mkDetails (Some incrementalType) None (Some "Input")
          (str_or (text d) (value (keys d)))
          None None None None None None None in
      Normal (mkEvent (raw_timestamp event) eventType details1 None
                (option_map element_of_input_target (target d)))
    else
      Normal (mkEvent (raw_timestamp event) eventType details0 None None)
  else if raw_type event =? RRwebEventType_Meta then
    d <- data_of event ;;
    Normal (mkEvent (raw_timestamp event) eventType (keys d)
              (href (keys d)) None)
  else
    Normal (mkEvent (raw_timestamp event) eventType (spread (data event))
              None None).

(* ================================================================== *)
(** ** loadRRwebData *)

(** One entry of [session.records]; [None] when [record.events] is
    missing or not an array. *)
Record RawRecord := mkRawRecord {
  record_events : option (list RRwebEvent)
}.

(** One entry of [data.sessions]. *)
Record RawSession := mkRawSession {
  raw_sessionId : option string;
  records : option (list RawRecord)
}.

(** What [safeJsonParse] hands back, by the tests the loader applies. *)
Inductive ParsedData :=
| Falsy                                  (* [!data] holds *)
| NoSessionsArray                        (* [data.sessions] unusable *)
| Sessions (sessions : list RawSession).

(** The file behind [filePath]. *)
Inductive FileInput :=
| FileMissing
| FileUnparsable
| FileContent (parsed : ParsedData).

(** The clock and the random source, by the number of the call. *)
Record Env := mkEnv {
  Date_now : nat -> Z;
  Math_random_36 : nat -> string   (* [.toString(36).substring(2, 9)] *)
}.

Definition string_of_Z (n : Z) : string :=
  NilZero.string_of_int (Z.to_int n).

Definition string_of_nat (n : nat) : string :=
  NilZero.string_of_uint (Nat.to_uint n).

(** [`session_${Date.now()}_${Math.random()...}`] at call number [k]. *)
Definition generated_sessionId (env : Env) (k : nat) : string :=
  String.append "session_"
    (String.append (string_of_Z (Date_now env k))
       (String.append "_" (Math_random_36 env k))).

(** The [forEach] over [session.records]. *)
Definition collect_events (recs : option (list RawRecord))
  : list RRwebEvent :=
  match recs with
  | Some rs =>
      fold_left
        (fun allEvents record =>
           match record_events record with
           | Some evs => allEvents ++ evs
           | None => allEvents
           end)
        rs []
  | None => []
  end.

Definition is_meta (event : RRwebEvent) : bool :=
  raw_type event =? RRwebEventType_Meta.

(** The value of the closure variable [url] after the [map]. *)
Definition last_meta_href (allEvents : list RRwebEvent) : string :=
  fold_left
    (fun url event =>
       match data event with
       | Some d =>
           if is_meta event && truthy_str (href (keys d))
           then match href (keys d) with Some h => h | None => url end
           else url
       | None => url
       end)
    allEvents "".

Definition last_meta_userAgent (allEvents : list RRwebEvent) : string :=
  fold_left
    (fun ua event =>
       match data event with
       | Some d =>
           if is_meta event && truthy_str (userAgent (keys d))
           then match userAgent (keys d) with Some h => h | None => ua end
           else ua
       | None => ua
       end)
    allEvents "".

(** The callback of [data.sessions.map]; [k] counts the identifiers
    generated so far. *)
Definition load_session (env : Env) (k : nat) (session : RawSession)
  : Completion (ProcessedRRwebData * nat) :=
  let '(sessionId, k') :=
    if truthy_str (raw_sessionId session)
    then (match raw_sessionId session with Some s => s | None => "" end, k)
    else (generated_sessionId env k, S k) in
  let allEvents :=
    sort (fun a b => raw_timestamp a - raw_timestamp b)
      (collect_events (records session)) in
  let startTime :=
    match allEvents with e :: _ => raw_timestamp e | [] => 0 end in
  let endTime :=
    match allEvents with
    | _ :: _ => raw_timestamp (last allEvents (mkRRwebEvent 0 0 None))
    | [] => 0
    end in
  processedEvents <- mapM processRRwebEvent allEvents ;;
  Normal
    (mkSession sessionId processedEvents
       (mkMetadata startTime endTime (endTime - startTime)
          (last_meta_href allEvents) (last_meta_userAgent allEvents)),
     k').

Fixpoint load_sessions (env : Env) (k : nat) (sessions : list RawSession)
  : Completion (list ProcessedRRwebData) :=
  match sessions with
  | [] => Normal []
  | session :: rest =>
      r <- load_session env k session ;;
      rs <- load_sessions env (snd r) rest ;;
      Normal (fst r :: rs)
  end.

(** The body of the [try] block. *)
Definition loadRRwebData_try (env : Env) (file : FileInput)
  : Completion (list ProcessedRRwebData) :=
  match file with
  | FileMissing => Normal []
  | FileUnparsable => Normal []
  | FileContent Falsy => Normal []
  | FileContent NoSessionsArray => Normal []
  | FileContent (Sessions sessions) => load_sessions env 0 sessions
  end.

(** [loadRRwebData]: the [catch] block logs and returns [[]]. *)
Definition loadRRwebData (env : Env) (file : FileInput)
  : Completion (list ProcessedRRwebData) :=
  match loadRRwebData_try env file with
  | Normal processedData => Normal processedData
  | Throw _ => Normal []
  end.

(* ================================================================== *)
(** ** Key moments *)

Inductive Moment :=
| NavigationLoop (ts : Z) (murl : string) (frequency : nat)
    (timeWindow : Z) (sid : string)
| JSError (ts : Z) (err : option string) (murl : string) (sid : string)
| RageClick (ts : Z) (clickCount : nat) (el : option Element)
    (murl : string) (context : list ProcessedRRwebEvent) (sid : string)
| DeadClick (ts : Z) (el : option Element) (murl : string)
    (context : list ProcessedRRwebEvent) (sid : string)
| FormAbandonment (ts : Z) (formId : string) (interactionCount : nat)
    (lastValue : option string) (murl : string)
    (context : option (list ProcessedRRwebEvent))
    (formCompleted : option bool) (sid : string)
| RapidScrolling (ts : Z) (scrollCount : nat) (dur : Z) (murl : string)
    (context : list ProcessedRRwebEvent) (sid : string)
| MouseHovering (ts : Z) (dur : Z) (pos : Pos) (murl : string)
    (context : list ProcessedRRwebEvent) (sid : string)
| Hesitation (ts : Z) (durationMs : Z)
    (beforeEvent afterEvent : ProcessedRRwebEvent) (murl : string)
    (context : list ProcessedRRwebEvent) (sid : string)
| MultipleSubmissions (ts : Z) (count : nat) (el : option Element)
    (murl : string) (context : list ProcessedRRwebEvent) (sid : string)
| HorizontalScrollMobile (ts : Z) (viewport : Z * Z) (scrollX : Z)
    (murl : string) (sid : string)
| ShortSession (ts : Z) (durationMs : Z) (pageCount : nat)
    (murl : string) (sid : string)
| SessionMetrics (ts : Z) (dur : Z) (clickCount inputCount : nat)
    (pageViewCount errorCount : nat) (sid : string).

(** The [type] key of a moment. *)
Definition moment_type (m : Moment) : string :=
  match m with
  | NavigationLoop _ _ _ _ _ => "NavigationLoop"
  | JSError _ _ _ _ => "JSError"
  | RageClick _ _ _ _ _ _ => "RageClick"
  | DeadClick _ _ _ _ _ => "DeadClick"
  | FormAbandonment _ _ _ _ _ _ _ _ => "FormAbandonment"
  | RapidScrolling _ _ _ _ _ _ => "RapidScrolling"
  | MouseHovering _ _ _ _ _ _ => "MouseHovering"
  | Hesitation _ _ _ _ _ _ _ => "Hesitation"
  | MultipleSubmissions _ _ _ _ _ _ => "MultipleSubmissions"
  | HorizontalScrollMobile _ _ _ _ _ => "HorizontalScrollMobile"
  | ShortSession _ _ _ _ _ => "ShortSession"
  | SessionMetrics _ _ _ _ _ _ _ => "SessionMetrics"
  end.

(** The [timestamp] key of a moment. *)
Definition moment_timestamp (m : Moment) : Z :=
  match m with
  | NavigationLoop ts _ _ _ _ | JSError ts _ _ _ | RageClick ts _ _ _ _ _
  | DeadClick ts _ _ _ _ | FormAbandonment ts _ _ _ _ _ _ _
  | RapidScrolling ts _ _ _ _ _ | MouseHovering ts _ _ _ _ _
  | Hesitation ts _ _ _ _ _ _ | MultipleSubmissions ts _ _ _ _ _
  | HorizontalScrollMobile ts _ _ _ _ | ShortSession ts _ _ _ _
  | SessionMetrics ts _ _ _ _ _ _ => ts
  end.

Definition is_type (name : string) (m : Moment) : bool :=
  (moment_type m =? name)%string.

(* ================================================================== *)
(** ** getContextAroundEvent *)

Definition simplify_details (d : Details) : Details :=
  match positions d with
  | Some ps =>
      if (3 <? List.length ps)%nat
      then mkDetails (incrementalType d) (interactionType d) (inputType d)
             (value d) (href d) (userAgent d) (width d) (height d)
             (Some (firstn 3 ps)) (key_x d) (error d)
      else d
  | None => d
  end.

Definition getContextAroundEvent (events : list ProcessedRRwebEvent)
    (currentIndex windowSize : nat) : list ProcessedRRwebEvent :=
  if (List.length events =? 0)%nat then []
  else if (List.length events <=? currentIndex)%nat then []
  else
    let startIdx := (currentIndex - windowSize)%nat in
    let endIdx :=
      Nat.min (List.length events - 1) (currentIndex + windowSize) in
    map (fun e =>
           mkEvent (timestamp e) (type e) (simplify_details (details e))
             None (element e))
      (slice startIdx (endIdx + 1) events).

(* ================================================================== *)
(** ** extractKeyMoments: event tests *)

(** [event.type === 'IncrementalSnapshot' &&
     event.details.incrementalType === ty]. *)
Definition is_incremental (ty : string) (e : ProcessedRRwebEvent) : bool :=
  (type e =? "IncrementalSnapshot")%string
  && str_is (incrementalType (details e)) ty.

Definition is_navigate (e : ProcessedRRwebEvent) : bool :=
  (type e =? "Navigate")%string.

Definition is_click (e : ProcessedRRwebEvent) : bool :=
  is_incremental "MouseInteraction" e
  && str_is (interactionType (details e)) "Click".

Definition is_click_or_mousedown (e : ProcessedRRwebEvent) : bool :=
  is_incremental "MouseInteraction" e
  && (str_is (interactionType (details e)) "Click"
      || str_is (interactionType (details e)) "MouseDown").

(** [element.position?.x || 0] and its [y] twin. *)
Definition elem_x (el : Element) : Z :=
  match position el with Some p => num_or0 (x p) | None => 0 end.

Definition elem_y (el : Element) : Z :=
  match position el with Some p => num_or0 (y p) | None => 0 end.

(** The filter of [sameAreaClicks]. *)
Definition same_area (event click : ProcessedRRwebEvent) : bool :=
  match element click, element event with
  | Some ce, Some ee =>
      (Z.abs (elem_x ce - elem_x ee) <? 20)
      && (Z.abs (elem_y ce - elem_y ee) <? 20)
  | _, _ => false
  end.

Definition interactiveElements : list string :=
  ["BUTTON"; "A"; "INPUT"; "SELECT"; "TEXTAREA"; "LABEL"].

Definition set_has (s : list string) (k : string) : bool :=
  existsb (fun k' => (k' =? k)%string) s.

(** [className && className.includes(sub)]. *)
Definition class_includes (el : Element) (sub : string) : bool :=
  match className el with
  | Some c => negb (c =? "")%string && includes c sub
  | None => false
  end.

(** [attributes && attributes[key] === lit]. *)
Definition attr_is (el : Element) (key lit : string) : bool :=
  match attributes el with
  | Some a => str_is (attr a key) lit
  | None => false
  end.

(** [attributes && attributes[key]] as a condition. *)
Definition attr_truthy (el : Element) (key : string) : bool :=
  match attributes el with
  | Some a => truthy_str (attr a key)
  | None => false
  end.

Definition is_dead_click_target (event : ProcessedRRwebEvent) : bool :=
  match element event with
  | Some el =>
      negb (set_has interactiveElements (tag el))
      && negb (class_includes el "btn")
      && negb (class_includes el "button")
      && negb (attr_is el "role" "button")
      && negb (attr_truthy el "onclick")
  | None => false
  end.

(** The submit heuristic shared by the MultipleSubmissions tests. *)
Definition submit_like (e : ProcessedRRwebEvent) : bool :=
  match element e with
  | Some el =>
      ((tag el =? "BUTTON")%string && attr_is el "type" "submit")
      || (class_includes el "submit" || class_includes el "send")
  | None => false
  end.

(** The [some] callback of [submissionFound]. *)
Definition is_submission (currentFormId : string)
    (e : ProcessedRRwebEvent) : bool :=
  is_click e
  && match element e with
     | Some el =>
         ((tag el =? "BUTTON")%string && attr_is el "type" "submit")
         || attr_is el "form" currentFormId
     | None => false
     end.

(** The first sample of a MouseMove event, [(0,0)] when there is none. *)
Definition first_position (m : ProcessedRRwebEvent) : Pos :=
  match positions (details m) with
  | Some (p :: _) => p
  | _ => mkPos 0 0
  end.

(** [pos.x !== 0 || pos.y !== 0]. *)
Definition position_valid (p : Pos) : bool :=
  negb (pos_x p =? 0) || negb (pos_y p =? 0).

Definition within_30 (p q : Pos) : bool :=
  (Z.abs (pos_x p - pos_x q) <? 30) && (Z.abs (pos_y p - pos_y q) <? 30).

(** [positions.every((pos, idx) => idx === 0 || near(pos, positions[idx-1]))]. *)
Fixpoint each_within_prev (ps : list Pos) : bool :=
  match ps with
  | p :: ((q :: _) as rest) => within_30 q p && each_within_prev rest
  | _ => true
  end.

(* ================================================================== *)
(** ** extractKeyMoments: first pass *)

Record Pass1 := mkPass1 {
  viewportSize : Z * Z;
  currentUrl : string;
  navigationEvents : list ProcessedRRwebEvent;
  errorEvents : list ProcessedRRwebEvent
}.

Definition NAVIGATION_LOOP_THRESHOLD : nat := 3.
Definition NAVIGATION_LOOP_TIME_WINDOW : Z := 120000.

Definition recentNavigations (navs : list ProcessedRRwebEvent)
    (event : ProcessedRRwebEvent) (cur : string)
  : list ProcessedRRwebEvent :=
  filter (fun e => str_is (url e) cur)
    (filter (fun e =>
               timestamp e >? timestamp event - NAVIGATION_LOOP_TIME_WINDOW)
       navs).

Definition pass1_step (sid : string) (st : Pass1)
    (event : ProcessedRRwebEvent) : Pass1 * list Moment :=
  let vp :=
    if (type event =? "Meta")%string
       && truthy_num (width (details event))
       && truthy_num (height (details event))
    then (num_or0 (width (details event)), num_or0 (height (details event)))
    else viewportSize st in
  let '(cur, navs, out_nav) :=
    if is_navigate event && truthy_str (href (details event)) then
      let cur :=
        match href (details event) with Some h => h | None => "" end in
      let navs := navigationEvents st ++ [event] in
      let recent := recentNavigations navs event cur in
      (cur, navs,
       if (NAVIGATION_LOOP_THRESHOLD <=? List.length recent)%nat
       then [NavigationLoop (timestamp event) cur (List.length recent)
               NAVIGATION_LOOP_TIME_WINDOW sid]
       else [])
    else (currentUrl st, navigationEvents st, []) in
  let '(errs, out_err) :=
    if is_incremental "Canvas" event && truthy_str (error (details event))
    then (errorEvents st ++ [event],
          [JSError (timestamp event) (error (details event)) cur sid])
    else (errorEvents st, []) in
  (mkPass1 vp cur navs errs, out_nav ++ out_err).

(* ================================================================== *)
(** ** extractKeyMoments: second pass *)

(** What the second pass reads but never writes. *)
Record Ctx := mkCtx {
  c_events : list ProcessedRRwebEvent;
  c_url : string;                 (* [currentUrl] after the first pass *)
  c_viewport : Z * Z;
  c_sid : string
}.

Record Pass2 := mkPass2 {
  clickEvents : list ProcessedRRwebEvent;
  lastClickTime : Z;
  formInteractions : list ProcessedRRwebEvent;
  currentFormId : option string;
  lastInputTime : Z;
  lastInputValue : option string;
  scrollEvents : list ProcessedRRwebEvent;
  lastScrollTime : Z;
  mouseMovements : list ProcessedRRwebEvent;
  lastMouseMoveTime : Z
}.

Definition pass2_init : Pass2 :=
  mkPass2 [] 0 [] None 0 None [] 0 [] 0.

Definition MAX_RAGE_CLICK_INTERVAL : Z := 1000.

(** Rage clicks and dead clicks. *)
Definition click_block (c : Ctx) (i : nat) (event : ProcessedRRwebEvent)
    (clicks : list ProcessedRRwebEvent) (lastClick : Z)
  : list ProcessedRRwebEvent * Z * list Moment :=
  if is_click_or_mousedown event then
    let pushed := clicks ++ [event] in
    let '(clicks', rage) :=
      if timestamp event - lastClick <? MAX_RAGE_CLICK_INTERVAL then
        if (3 <=? List.length pushed)%nat then
          let sameAreaClicks := filter (same_area event) pushed in
          if (3 <=? List.length sameAreaClicks)%nat then
            ([], [RageClick (timestamp event) (List.length sameAreaClicks)
                    (element event) (c_url c)
                    (getContextAroundEvent (c_events c) i 5) (c_sid c)])
          else (pushed, [])
        else (pushed, [])
      else ([event], []) in
    let dead :=
      if is_dead_click_target event
      then [DeadClick (timestamp event) (element event) (c_url c)
              (getContextAroundEvent (c_events c) i 3) (c_sid c)]
      else [] in
    (clicks', timestamp event, rage ++ dead)
  else (clicks, lastClick, []).

(** Tracking of form input. *)
Definition input_block (event : ProcessedRRwebEvent)
    (forms : list ProcessedRRwebEvent) (formId : option string)
    (lastTime : Z) (lastValue : option string)
  : list ProcessedRRwebEvent * option string * Z * option string :=
  if is_incremental "Input" event then
    let pushed := forms ++ [event] in
    let formId' :=
      match element event with
      | Some el =>
          if attr_truthy el "form" then
            str_or (match attributes el with
                    | Some a => attr a "form"
                    | None => None
                    end)
              (Some (String.append "form-"
                       (string_of_nat (List.length pushed))))
          else formId
      | None => formId
      end in
    (pushed, formId', timestamp event, value (details event))
  else (forms, formId, lastTime, lastValue).

(** Form abandonment when navigating away. *)
Definition navigate_block (c : Ctx) (i : nat) (event : ProcessedRRwebEvent)
    (forms : list ProcessedRRwebEvent) (formId : option string)
    (lastValue : option string)
  : list ProcessedRRwebEvent * option string * list Moment :=
  if is_navigate event && truthy_str formId && (0 <? List.length forms)%nat
  then
    let fid := match formId with Some f => f | None => "" end in
    let submissionFound :=
      existsb (is_submission fid) (slice (i - 10) i (c_events c)) in
    ([], None,
     if negb submissionFound && (2 <=? List.length forms)%nat
     then [FormAbandonment (timestamp event) fid (List.length forms)
             lastValue (c_url c)
             (Some (getContextAroundEvent (c_events c) i 10)) None
             (c_sid c)]
     else [])
  else (forms, formId, []).

Definition SCROLL_DETECTION_WINDOW : Z := 5000.
Definition RAPID_SCROLL_THRESHOLD : nat := 8.

(** Rapid scrolling. *)
Definition scroll_block (c : Ctx) (i : nat) (event : ProcessedRRwebEvent)
    (scrolls : list ProcessedRRwebEvent) (lastScroll : Z)
  : list ProcessedRRwebEvent * Z * list Moment :=
  if is_incremental "Scroll" event then
    let pushed := scrolls ++ [event] in
    let recentScrolls :=
      filter (fun e =>
                timestamp e >? timestamp event - SCROLL_DETECTION_WINDOW)
        pushed in
    if (RAPID_SCROLL_THRESHOLD <=? List.length recentScrolls)%nat then
      (slice_last 2 pushed, timestamp event,
       [RapidScrolling (timestamp event) (List.length recentScrolls)
          (timestamp event - timestamp (hd event recentScrolls))
          (c_url c) (getContextAroundEvent (c_events c) i 5) (c_sid c)])
    else (pushed, timestamp event, [])
  else (scrolls, lastScroll, []).

(** Mouse hovering. *)
Definition hover_block (c : Ctx) (i : nat) (event : ProcessedRRwebEvent)
    (moves : list ProcessedRRwebEvent) (lastMove : Z)
  : list ProcessedRRwebEvent * Z * list Moment :=
  if is_incremental "MouseMove" event then
    let pushed := moves ++ [event] in
    let out :=
      if (3 <=? List.length pushed)%nat
         && (timestamp event - lastMove >? 3000) then
        let lastMoves := slice_last 3 pushed in
        let ps := map first_position lastMoves in
        let allPositionsValid := forallb position_valid ps in
        if allPositionsValid then
          let allPositionsWithinRange := each_within_prev ps in
          if allPositionsWithinRange then
            [MouseHovering (timestamp event)
               (timestamp event - timestamp (hd event lastMoves))
               (last ps (mkPos 0 0)) (c_url c)
               (getContextAroundEvent (c_events c) i 3) (c_sid c)]
          else []
        else []
      else [] in
    (pushed, timestamp event, out)
  else (moves, lastMove, []).

(** Hesitation between [events[i - 1]] and [events[i]]. *)
Definition hesitation_block (c : Ctx) (i : nat)
    (event : ProcessedRRwebEvent) : list Moment :=
  match i with
  | O => []
  | S j =>
      match nth_error (c_events c) j with
      | Some prevEvent =>
          let timeDiff := timestamp event - timestamp prevEvent in
          if (timeDiff >? 10000)
             && (timeDiff <? 300000)
             && (type event =? "IncrementalSnapshot")%string
             && (type prevEvent =? "IncrementalSnapshot")%string
             && (str_is (incrementalType (details event)) "MouseInteraction"
                 || str_is (incrementalType (details event)) "Input")
          then [Hesitation (timestamp event) timeDiff prevEvent event
                  (c_url c) (getContextAroundEvent (c_events c) i 5)
                  (c_sid c)]
          else []
      | None => []
      end
  end.

Definition SUBMISSION_WINDOW : Z := 10000.

(** Repeated clicks on a submit control. *)
Definition submission_block (c : Ctx) (i : nat)
    (event : ProcessedRRwebEvent) : list Moment :=
  if is_click event && submit_like event then
    let recentSubmissions :=
      filter (fun e =>
                is_incremental "MouseInteraction" e
                && (timestamp e >? timestamp event - SUBMISSION_WINDOW)
                && submit_like e)
        (slice (i - 20) i (c_events c)) in
    if (2 <=? List.length recentSubmissions)%nat
    then [MultipleSubmissions (timestamp event)
            (List.length recentSubmissions + 1) (element event) (c_url c)
            (getContextAroundEvent (c_events c) i 10) (c_sid c)]
    else []
  else [].

(** Horizontal scrolling on a narrow viewport. *)
Definition viewport_block (c : Ctx) (event : ProcessedRRwebEvent)
  : list Moment :=
  if (fst (c_viewport c) <? 768)
     && is_incremental "Scroll" event
     && match key_x (details event) with
        | Some sx => sx >? 0
        | None => false
        end
  then [HorizontalScrollMobile (timestamp event) (c_viewport c)
          (num_or0 (key_x (details event))) (c_url c) (c_sid c)]
  else [].

(** One iteration of [for (let i = 0; i < events.length; i++)]. *)
Definition pass2_step (c : Ctx) (st : Pass2)
    (ie : nat * ProcessedRRwebEvent) : Pass2 * list Moment :=
  let '(i, event) := ie in
  let '(clicks, lastClick, out_click) :=
    click_block c i event (clickEvents st) (lastClickTime st) in
  let '(forms1, formId1, lastIn, lastVal) :=
    input_block event (formInteractions st) (currentFormId st)
      (lastInputTime st) (lastInputValue st) in
  let '(forms2, formId2, out_form) :=
    navigate_block c i event forms1 formId1 lastVal in
  let '(scrolls, lastScroll, out_scroll) :=
    scroll_block c i event (scrollEvents st) (lastScrollTime st) in
  let '(moves, lastMove, out_hover) :=
    hover_block c i event (mouseMovements st) (lastMouseMoveTime st) in
  (mkPass2 clicks lastClick forms2 formId2 lastIn lastVal scrolls
     lastScroll moves lastMove,
   out_click ++ out_form ++ out_scroll ++ out_hover
   ++ hesitation_block c i event
   ++ submission_block c i event
   ++ viewport_block c event).

(* ================================================================== *)
(** ** extractKeyMoments: post-session analysis *)

Definition end_of_session_form (c : Ctx) (st : Pass2) : list Moment :=
  if truthy_str (currentFormId st)
     && (0 <? List.length (formInteractions st))%nat
  then [FormAbandonment
          (timestamp (last (c_events c) (mkEvent 0 "" no_details None None)))
          (match currentFormId st with Some f => f | None => "" end)
          (List.length (formInteractions st)) (lastInputValue st)
          (c_url c) None (Some false) (c_sid c)]
  else [].

Definition short_session (session : ProcessedRRwebData) (p1 : Pass1)
  : list Moment :=
  if (duration (metadata session) <? 10000)
     && (List.length (navigationEvents p1) <=? 2)%nat
  then [ShortSession (startTime (metadata session))
          (duration (metadata session)) (List.length (navigationEvents p1))
          (currentUrl p1) (sessionId session)]
  else [].

Definition session_metrics (session : ProcessedRRwebData) (p1 : Pass1)
  : Moment :=
  SessionMetrics (startTime (metadata session))
    (duration (metadata session))
    (List.length (filter is_click (events session)))
    (List.length (filter (is_incremental "Input") (events session)))
    (List.length (filter is_navigate (events session)))
    (List.length (errorEvents p1))
    (sessionId session).

(** The first loop over [events], from the initial tracking variables. *)
Definition first_pass (session : ProcessedRRwebData) : Pass1 * list Moment :=
  scan (pass1_step (sessionId session))
    (mkPass1 (0, 0) (meta_url (metadata session)) [] [])
    (events session).

(** What the second loop sees of the first. *)
Definition session_ctx (session : ProcessedRRwebData) : Ctx :=
  let p1 := fst (first_pass session) in
  mkCtx (events session) (currentUrl p1) (viewportSize p1)
    (sessionId session).

Definition second_pass (session : ProcessedRRwebData) : Pass2 * list Moment :=
  scan (pass2_step (session_ctx session)) pass2_init
    (indexed (events session)).

(** The body of [for (const session of rrwebData)]. *)
Definition extractSession (session : ProcessedRRwebData) : list Moment :=
  match events session with
  | [] => []                                  (* [continue] *)
  | _ :: _ =>
      let '(p1, out1) := first_pass session in
      let '(p2, out2) := second_pass session in
      out1 ++ out2
      ++ end_of_session_form (session_ctx session) p2
      ++ short_session session p1
      ++ [session_metrics session p1]
  end.

Definition extractKeyMoments (rrwebData : list ProcessedRRwebData)
  : list Moment :=
  flat_map extractSession rrwebData.

(* ================================================================== *)
(** ** The relevance score on binary64 *)

Definition prec : Z := 53.
Definition emax : Z := 1024.

(** An integer as a double (exact below [2^53]). *)
Definition double_of_Z (n : Z) : spec_float :=
  binary_normalize prec emax n 0 false.

Definition NEARBY_EVENT_WINDOW_MS : Z := 30000.

(** [1 - (timeDiffMs / NEARBY_EVENT_WINDOW_MS)]. *)
Definition relevance_double (timeDiffMs : Z) : spec_float :=
  SFsub prec emax (double_of_Z 1)
    (SFdiv prec emax (double_of_Z timeDiffMs)
       (double_of_Z NEARBY_EVENT_WINDOW_MS)).

(** The integer [n] nearest to [m * 2^e], the larger one on a tie. *)
Definition nearest_integer (m e : Z) : Z :=
  if 0 <=? e then m * 2 ^ e
  else (2 * m + 2 ^ (- e)) / 2 ^ (- e + 1).

(** [parseFloat(x.toFixed(2))], as a number of hundredths; [None] is
    [NaN] (and the infinities, which [toFixed] prints as such). *)
Definition toFixed2 (f : spec_float) : option Z :=
  match f with
  | S754_zero _ => Some 0
  | S754_finite s m e =>
      let n := nearest_integer (Z.pos m * 100) e in
      Some (if s then - n else n)
  | _ => None
  end.

(* ================================================================== *)
(** ** syncWithPostHogEvents *)

(** [interface PostHogEvent]. *)
Record PostHogEvent := mkPostHogEvent {
  ph_id : string;
  ph_event : string;
  distinct_id : string;
  properties : list (string * string);
  ph_timestamp : string;
  elements_chain : option string
}.

(** [{ ...event, normalizedTimestamp }]; [None] is [NaN]. *)
Record NormalizedPostHogEvent := mkNormalized {
  n_event : PostHogEvent;
  normalizedTimestamp : option Z
}.

(** [{ ...event, relevanceScore }], the score in hundredths. *)
Record RelevantEvent := mkRelevant {
  r_event : NormalizedPostHogEvent;
  relevanceScore : option Z
}.

(** [{ ...moment, nearbyPosthogEvents }]. *)
Record SyncedMoment := mkSynced {
  s_moment : Moment;
  nearbyPosthogEvents : list RelevantEvent
}.

(** [Math.abs(event.normalizedTimestamp - t)]. *)
Definition time_distance (t : Z) (event : NormalizedPostHogEvent)
  : option Z :=
  match normalizedTimestamp event with
  | Some nt => Some (Z.abs (nt - t))
  | None => None
  end.

(** The filter of [nearbyEvents]; a comparison with [NaN] is false. *)
Definition is_nearby (t : Z) (event : NormalizedPostHogEvent) : bool :=
  match time_distance t event with
  | Some d => d <? NEARBY_EVENT_WINDOW_MS
  | None => false
  end.

(** The comparator of [nearbyEvents.sort]; [NaN] counts as [0]. *)
Definition by_proximity (t : Z) (a b : NormalizedPostHogEvent) : Z :=
  match time_distance t a, time_distance t b with
  | Some da, Some db => da - db
  | _, _ => 0
  end.

Definition score_event (t : Z) (event : NormalizedPostHogEvent)
  : RelevantEvent :=
  mkRelevant event
    match time_distance t event with
    | Some timeDiffMs => toFixed2 (relevance_double timeDiffMs)
    | None => None
    end.

(** The callback of [keyMoments.map]. *)
Definition sync_moment (normalized : list NormalizedPostHogEvent)
    (moment : Moment) : SyncedMoment :=
  let t := moment_timestamp moment in
  let nearbyEvents := filter (is_nearby t) normalized in
  let sorted := sort (by_proximity t) nearbyEvents in
  mkSynced moment (map (score_event t) sorted).

Section Sync.

(** [new Date(s).getTime()], the date parser of the runtime. *)
Variable Date_getTime : string -> option Z.

Definition normalize_posthog (posthogEvents : list PostHogEvent)
  : list NormalizedPostHogEvent :=
  map (fun event => mkNormalized event (Date_getTime (ph_timestamp event)))
    posthogEvents.

Definition syncWithPostHogEvents (rrwebData : list ProcessedRRwebData)
    (posthogEvents : list PostHogEvent)
  : list NormalizedPostHogEvent * list SyncedMoment :=
  let keyMoments := extractKeyMoments rrwebData in
  let normalizedPosthogEvents := normalize_posthog posthogEvents in
  (normalizedPosthogEvents,
   map (sync_moment normalizedPosthogEvents) keyMoments).

(** Load, extract and join, as [processWithRRwebData] chains them. *)
Definition pipeline (env : Env) (file : FileInput)
    (posthogEvents : list PostHogEvent)
  : Completion (list SyncedMoment) :=
  rrwebData <- loadRRwebData env file ;;
  Normal (snd (syncWithPostHogEvents rrwebData posthogEvents)).

End Sync.


(* ================================================================== *)
(** ** Helpers of the report and screenshot modules *)

(** [truncateString]; [substring(0, maxLength)] takes a negative
    [maxLength] for 0. *)
Definition truncateString (str : string) (maxLength : Z) : string :=
  if (str =? "")%string then ""
  else if Z.of_nat (String.length str) <=? maxLength then str
  else String.append (substring 0 (Z.to_nat maxLength) str) "...".

(** The table of [eventTypeToNumber], by its own keys. *)
Definition typeMap (typeString : string) : option Z :=
  if (typeString =? "DomContentLoaded")%string then Some 0
  else if (typeString =? "Load")%string then Some 1
  else if (typeString =? "FullSnapshot")%string then Some 2
  else if (typeString =? "IncrementalSnapshot")%string then Some 3
  else if (typeString =? "Meta")%string then Some 4
  else if (typeString =? "Custom")%string then Some 5
  else None.

(** [typeMap[typeString] || RRwebEventType.DomContentLoaded]. *)
Definition eventTypeToNumber (typeString : string) : Z :=
  match typeMap typeString with
  | Some n => if n =? 0 then 0 else n
  | None => 0
  end.

(** [{ sessionId, events }], a session of external events. *)
Record PostHogSession := mkPostHogSession {
  ps_sessionId : string;
  ps_events : list PostHogEvent
}.

(** [selectRelevantSessions], for a [maxSessions] that is not negative. *)
Definition selectRelevantSessions (sessions : list PostHogSession)
    (maxSessions : nat) : list PostHogSession :=
  firstn maxSessions
    (sort (fun a b =>
             Z.of_nat (List.length (ps_events b))
             - Z.of_nat (List.length (ps_events a)))
       sessions).

(* ================================================================== *)
(** ** groupEventsBySession *)

Definition SESSION_TIMEOUT_MS : Z := 30 * 60 * 1000.

Section Grouping.

(** [new Date(s).getTime()]; [None] is [NaN]. *)
Variable Date_getTime : string -> option Z.

Definition time_of (event : PostHogEvent) : option Z :=
  Date_getTime (ph_timestamp event).

(** A number inside a template literal. *)
Definition string_of_number (n : option Z) : string :=
  match n with
  | Some z => string_of_Z z
  | None => "NaN"
  end.

(** The comparator of [sortedEvents]; [NaN] counts as [0]. *)
Definition by_time (a b : PostHogEvent) : Z :=
  match time_of a, time_of b with
  | Some ta, Some tb => ta - tb
  | _, _ => 0
  end.

(** [eventTime - lastEventTime < SESSION_TIMEOUT_MS]. *)
Definition within_timeout (eventTime lastEventTime : option Z) : bool :=
  match eventTime, lastEventTime with
  | Some t, Some l => t - l <? SESSION_TIMEOUT_MS
  | _, _ => false
  end.

(** [`${userId}_${eventTime}`]. *)
Definition session_key (event : PostHogEvent) : string :=
  String.append (distinct_id event)
    (String.append "_" (string_of_number (time_of event))).

(** The [for ... in] loop over the sessions, in the order of their
    creation: the event goes to the first session whose key starts with
    its user and whose last event is recent enough; [None] when
    [sessionFound] stays false. *)
Fixpoint join_session (sessions : list (string * list PostHogEvent))
    (event : PostHogEvent) : option (list (string * list PostHogEvent)) :=
  match sessions with
  | [] => None
  | (sessionId, sessionEvents) :: rest =>
      if prefix (distinct_id event) sessionId
         && within_timeout (time_of event)
              (time_of (last sessionEvents event))
      then Some ((sessionId, sessionEvents ++ [event]) :: rest)
      else option_map (cons (sessionId, sessionEvents))
             (join_session rest event)
  end.

(** [sessions[sessionId] = value]: an existing key keeps its place. *)
Fixpoint set_session (sessions : list (string * list PostHogEvent))
    (sessionId : string) (value : list PostHogEvent)
  : list (string * list PostHogEvent) :=
  match sessions with
  | [] => [(sessionId, value)]
  | (k, v) :: rest =>
      if (k =? sessionId)%string then (sessionId, value) :: rest
      else (k, v) :: set_session rest sessionId value
  end.

(** The body of [for (const event of sortedEvents)]. *)
Definition group_step (sessions : list (string * list PostHogEvent))
    (event : PostHogEvent) : list (string * list PostHogEvent) :=
  match join_session sessions event with
  | Some sessions' => sessions'
  | None => set_session sessions (session_key event) [event]
  end.

(** [groupEventsBySession]: the sessions as the entries of the object
    it returns. *)
Definition groupEventsBySession (events : list PostHogEvent)
  : list (string * list PostHogEvent) :=
  match events with
  | [] => []
  | _ :: _ => fold_left group_step (sort by_time events) []
  end.

End Grouping.

(** [formatSensitiveValue] of the environment check. *)
Definition formatSensitiveValue (key value : string) : string :=
  if includes key "API_KEY" || includes key "SECRET"
     || includes key "PASSWORD"
  then String.append (substring 0 5 value)
         (String.append "... ("
            (String.append (string_of_nat (String.length value)) " chars)"))
  else value.

(* ================================================================== *)
(** ** Definitions used to state the properties *)

(** Every moment of [out] has its [type] among [names]. *)
Definition emits (names : list string) (out : list Moment) : Prop :=
  Forall (fun m => In (moment_type m) names) out.

(** The moments of one [type]. *)
Definition of_type (name : string) (out : list Moment) : list Moment :=
  filter (is_type name) out.

(** The components of the result of [input_block]. *)
Definition forms_after_input (st : Pass2) (e : ProcessedRRwebEvent)
  : list ProcessedRRwebEvent :=
  fst (fst (fst (input_block e (formInteractions st) (currentFormId st)
                   (lastInputTime st) (lastInputValue st)))).

Definition formId_after_input (st : Pass2) (e : ProcessedRRwebEvent)
  : option string :=
  snd (fst (fst (input_block e (formInteractions st) (currentFormId st)
                   (lastInputTime st) (lastInputValue st)))).

Definition value_after_input (st : Pass2) (e : ProcessedRRwebEvent)
  : option string :=
  snd (input_block e (formInteractions st) (currentFormId st)
         (lastInputTime st) (lastInputValue st)).

(** What the form-abandonment test of one iteration pushes. *)
Definition form_out (c : Ctx) (st : Pass2) (i : nat)
    (e : ProcessedRRwebEvent) : list Moment :=
  snd (navigate_block c i e (forms_after_input st e)
         (formId_after_input st e) (value_after_input st e)).

(** The [errorCount] key of a SessionMetrics moment. *)
Definition errorCount_of (m : Moment) : option nat :=
  match m with
  | SessionMetrics _ _ _ _ _ errorCount _ => Some errorCount
  | _ => None
  end.

(** A raw record that stands for a page navigation: a Meta record with
    its [href]. *)
Definition raw_navigation (t : Z) (h : string) : RRwebEvent :=
  mkRRwebEvent RRwebEventType_Meta t
    (Some (mkRawData None None None None None
             (mkDetails None None None None (Some h) None None None None
                None None))).

(** A processed event of type [Navigate] to [h], as the detectors of
    [extractKeyMoments] expect it. *)
Definition navigate_event (t : Z) (h : string) : ProcessedRRwebEvent :=
  mkEvent t "Navigate"
    (mkDetails None None None None (Some h) None None None None None None)
    (Some h) None.

(** The patterns the second pass can report. *)
Definition pass2_types : list string :=
  ["RageClick"; "DeadClick"; "FormAbandonment"; "RapidScrolling";
   "MouseHovering"; "Hesitation"; "MultipleSubmissions";
   "HorizontalScrollMobile"].


(** What a session pushes before its SessionMetrics moment. *)
Definition pattern_moments (session : ProcessedRRwebData) : list Moment :=
  snd (first_pass session) ++ snd (second_pass session)
  ++ end_of_session_form (session_ctx session) (fst (second_pass session))
  ++ short_session session (fst (first_pass session)).

Definition pattern_types : list string :=
  ["NavigationLoop"; "JSError"; "RageClick"; "DeadClick";
   "FormAbandonment"; "RapidScrolling"; "MouseHovering"; "Hesitation";
   "MultipleSubmissions"; "HorizontalScrollMobile"; "ShortSession"].

(** A CanvasMutation record whose payload carries an [error] key and
    even an [incrementalType] key of its own. *)
Definition raw_canvas_error (t : Z) : RRwebEvent :=
  mkRRwebEvent RRwebEventType_IncrementalSnapshot t
    (Some (mkRawData (Some 9) None None None None
             (mkDetails (Some "Canvas") None None None None None None None
                None None (Some "boom")))).

Definition meta0 : Metadata := mkMetadata 0 0 0 "" "".

(** A file with one session that navigates to [/a] three times within
    two seconds. *)
Definition nav_loop_file : FileInput :=
  FileContent
    (Sessions
       [mkRawSession (Some "s1")
          (Some [mkRawRecord
                   (Some [raw_navigation 1000 "/a"; raw_navigation 2000 "/a";
                          raw_navigation 3000 "/a"])])]).

(** The session the loader makes of [nav_loop_file]. *)
Definition nav_loop_loaded : ProcessedRRwebData :=
  let meta t :=
    mkEvent t "Meta"
      (mkDetails None None None None (Some "/a") None None None None None
         None)
      (Some "/a") None in
  mkSession "s1" [meta 1000; meta 2000; meta 3000]
    (mkMetadata 1000 3000 2000 "/a" "").

(** The same visit written with events of type [Navigate]. *)
Definition nav_loop_navigate : ProcessedRRwebData :=
  mkSession "s1"
    [navigate_event 1000 "/a"; navigate_event 2000 "/a";
     navigate_event 3000 "/a"]
    (mkMetadata 1000 3000 2000 "/a" "").

(** Every session of the file brings its own (non-empty) [sessionId]. *)
Definition all_sessions_identified (file : FileInput) : bool :=
  match file with
  | FileContent (Sessions sessions) =>
      forallb (fun s => truthy_str (raw_sessionId s)) sessions
  | _ => true
  end.

(** Two clocks with their random sources. *)
Definition env_a : Env := mkEnv (fun _ => 1) (fun _ => "aaaaaaa").
Definition env_b : Env := mkEnv (fun _ => 2) (fun _ => "bbbbbbb").

(** A click on a [div], as a raw record. *)
Definition raw_click (t : Z) : RRwebEvent :=
  mkRRwebEvent RRwebEventType_IncrementalSnapshot t
    (Some (mkRawData (Some 2) (Some 2)
             (Some (mkTarget "DIV" None None None None None None))
             (Some 5) None
             (mkDetails None None None None None None None None None
                (Some 5) None))).

(** An incremental snapshot that lost its payload. *)
Definition raw_no_payload (t : Z) : RRwebEvent :=
  mkRRwebEvent RRwebEventType_IncrementalSnapshot t None.

Definition good_session : RawSession :=
  mkRawSession (Some "good") (Some [mkRawRecord (Some [raw_click 10])]).

Definition bad_session : RawSession :=
  mkRawSession (Some "bad") (Some [mkRawRecord (Some [raw_no_payload 20])]).

(** A session without [sessionId]. *)
Definition anonymous_file : FileInput :=
  FileContent
    (Sessions [mkRawSession None (Some [mkRawRecord (Some [raw_click 10])])]).

Definition identified_file : FileInput :=
  FileContent (Sessions [good_session]).

(** A date parser that knows no date. *)
Definition no_date (s : string) : option Z := None.


(** [s] hundredths is in [[0,1]] and a nearest hundredth of
    [1 - d / 30000]. *)
Definition rounds_score (d s : Z) : Prop :=
  0 <= s <= 100 /\ Z.abs (30000 * s - 100 * (30000 - d)) <= 15000.

(** [nearest_integer] and [toFixed2] computed with shifts. *)
Definition nearest_integer_shift (m e : Z) : Z :=
  if 0 <=? e then Z.shiftl m e
  else Z.shiftr (2 * m + Z.shiftl 1 (- e)) (- e + 1).

Definition toFixed2_shift (f : spec_float) : option Z :=
  match f with
  | S754_zero _ => Some 0
  | S754_finite s m e =>
      let n := nearest_integer_shift (Z.pos m * 100) e in
      Some (if s then - n else n)
  | _ => None
  end.

Definition score_rounded (d : Z) : bool :=
  match toFixed2_shift (relevance_double d) with
  | Some s =>
      (0 <=? s) && (s <=? 100)
      && (Z.abs (30000 * s - 100 * (30000 - d)) <=? 15000)
  | None => false
  end.

(** [f] holds of the [fuel] integers from [d] on. *)
Fixpoint all_from (fuel : nat) (d : Z) (f : Z -> bool) : bool :=
  match fuel with
  | O => true
  | S k => f d && all_from k (d + 1) f
  end.


(** Each event with the one that follows it. *)
Definition consecutive {A} (l : list A) : list (A * A) :=
  combine l (tl l).

(** The test of a hesitation between [prevEvent] and [event], in words:
    a gap of more than 10 s and less than 300 s, the later event an
    incremental snapshot of a mouse interaction or an input, the earlier
    one an incremental snapshot of any kind. *)
Definition hesitates (prevEvent event : ProcessedRRwebEvent) : Prop :=
  10000 < timestamp event - timestamp prevEvent < 300000
  /\ type event = "IncrementalSnapshot"
  /\ (incrementalType (details event) = Some "MouseInteraction"
      \/ incrementalType (details event) = Some "Input")
  /\ type prevEvent = "IncrementalSnapshot".

Definition hesitatesb (prevEvent event : ProcessedRRwebEvent) : bool :=
  let gap := timestamp event - timestamp prevEvent in
  (10000 <? gap) && (gap <? 300000)
  && (type event =? "IncrementalSnapshot")%string
  && (str_is (incrementalType (details event)) "MouseInteraction"
      || str_is (incrementalType (details event)) "Input")
  && (type prevEvent =? "IncrementalSnapshot")%string.

(** The Hesitation moment of the pair at positions [i] and [i + 1]. *)
Definition hesitation_moment (c : Ctx) (i : nat)
    (pair : ProcessedRRwebEvent * ProcessedRRwebEvent) : Moment :=
  let (prevEvent, event) := pair in
  Hesitation (timestamp event) (timestamp event - timestamp prevEvent)
    prevEvent event (c_url c)
    (getContextAroundEvent (c_events c) (S i) 5) (c_sid c).

(** Processed events for the examples. *)
Definition incremental (t : Z) (ty : string) : ProcessedRRwebEvent :=
  mkEvent t "IncrementalSnapshot"
    (mkDetails (Some ty) None None None None None None None None None None)
    None None.

Definition click_at (t : Z) (tg : string) (px py : Z)
  : ProcessedRRwebEvent :=
  mkEvent t "IncrementalSnapshot"
    (mkDetails (Some "MouseInteraction") (Some "Click") None None None
       None None None None None None)
    None
    (Some (mkElement tg None None None None
             (Some (mkPosition (Some px) (Some py) None None)))).

Definition move_at (t : Z) (px py : Z) : ProcessedRRwebEvent :=
  mkEvent t "IncrementalSnapshot"
    (mkDetails (Some "MouseMove") None None None None None None None
       (Some [mkPos px py]) None None)
    None None.

Definition session_of (evs : list ProcessedRRwebEvent)
  : ProcessedRRwebData :=
  mkSession "s"
    evs
    (mkMetadata (match evs with e :: _ => timestamp e | [] => 0 end)
       (timestamp (last evs (incremental 0 "")))
       (timestamp (last evs (incremental 0 ""))
        - match evs with e :: _ => timestamp e | [] => 0 end)
       "" "").

(** The MouseMove events of a list, and the timestamp of its last one
    ([0], the initial [lastMouseMoveTime], when there is none). *)
Definition moves_of (l : list ProcessedRRwebEvent)
  : list ProcessedRRwebEvent :=
  filter (is_incremental "MouseMove") l.

Definition last_move_time (l : list ProcessedRRwebEvent) : Z :=
  fold_left
    (fun t e => if is_incremental "MouseMove" e then timestamp e else t)
    l 0.

(** The first positions of the last three MouseMove events among the
    events up to index [i]. *)
Definition hover_positions (evs : list ProcessedRRwebEvent) (i : nat)
  : list Pos :=
  map first_position (slice_last 3 (moves_of (firstn (S i) evs))).

(** The hovering test at index [i], read off the events alone. *)
Definition hovering_at (evs : list ProcessedRRwebEvent) (i : nat)
    (e : ProcessedRRwebEvent) : bool :=
  is_incremental "MouseMove" e
  && (3 <=? List.length (moves_of (firstn (S i) evs)))%nat
  && (3000 <? timestamp e - last_move_time (firstn i evs))
  && forallb position_valid (hover_positions evs i)
  && each_within_prev (hover_positions evs i).

Definition hovering_moment (c : Ctx) (i : nat) (e : ProcessedRRwebEvent)
  : Moment :=
  MouseHovering (timestamp e)
    (timestamp e
     - timestamp (hd e (slice_last 3 (moves_of (firstn (S i) (c_events c))))))
    (last (hover_positions (c_events c) i) (mkPos 0 0)) (c_url c)
    (getContextAroundEvent (c_events c) i 3) (c_sid c).

(** The click clusters, in words: a click or mouse-down event that comes
    1000 ms or more after the one before it opens a new cluster of its
    own; otherwise it joins the open cluster, and when the cluster then
    holds at least 3 events within 20 px of it on both axes, it is
    reported with their number and the cluster restarts empty.  [prev] is
    the time of the click before, [clicks] the click and mouse-down
    events to come, each with its index in the session. *)
Fixpoint rage_clusters (cluster : list ProcessedRRwebEvent) (prev : Z)
    (clicks : list (nat * ProcessedRRwebEvent))
  : list (nat * ProcessedRRwebEvent * nat) :=
  match clicks with
  | [] => []
  | (i, click) :: rest =>
      if timestamp click - prev <? 1000 then
        let n :=
          List.length (filter (same_area click) (cluster ++ [click])) in
        if (3 <=? n)%nat
        then (i, click, n) :: rage_clusters [] (timestamp click) rest
        else rage_clusters (cluster ++ [click]) (timestamp click) rest
      else rage_clusters [click] (timestamp click) rest
  end.

Definition rage_moment (c : Ctx)
    (r : nat * ProcessedRRwebEvent * nat) : Moment :=
  let '(i, click, n) := r in
  RageClick (timestamp click) n (element click) (c_url c)
    (getContextAroundEvent (c_events c) i 5) (c_sid c).

(** The click and mouse-down events of a session, with their indices. *)
Definition clicks_of (evs : list (nat * ProcessedRRwebEvent))
  : list (nat * ProcessedRRwebEvent) :=
  filter (fun ie => is_click_or_mousedown (snd ie)) evs.

(** The sessions of the RageClick boundary. *)
Definition three_clicks : list ProcessedRRwebEvent :=
  [click_at 0 "BUTTON" 100 100; click_at 300 "BUTTON" 105 102;
   click_at 600 "BUTTON" 110 95].

Definition four_clicks : list ProcessedRRwebEvent :=
  three_clicks ++ [click_at 2000 "BUTTON" 110 95].

(** Three clicks on one spot, 900 ms apart each. *)
Definition slow_clicks : list ProcessedRRwebEvent :=
  [click_at 5000 "BUTTON" 50 50; click_at 5900 "BUTTON" 50 50;
   click_at 6800 "BUTTON" 50 50].

(** Four clicks on one spot within 300 ms. *)
Definition fast_clicks : list ProcessedRRwebEvent :=
  [click_at 0 "BUTTON" 50 50; click_at 100 "BUTTON" 50 50;
   click_at 200 "BUTTON" 50 50; click_at 300 "BUTTON" 50 50].

(** The Input events of a list. *)
Definition inputs_of (l : list ProcessedRRwebEvent)
  : list ProcessedRRwebEvent :=
  filter (is_incremental "Input") l.

(** The form identifier an event names: its non-empty [form] attribute. *)
Definition form_attr (e : ProcessedRRwebEvent) : option string :=
  match element e with
  | Some el =>
      if attr_truthy el "form"
      then match attributes el with
           | Some a => attr a "form"
           | None => None
           end
      else None
  | None => None
  end.

(** The form left open by a run of events: the one named by the last
    Input event that names one. *)
Definition open_form (l : list ProcessedRRwebEvent) : option string :=
  fold_left
    (fun f e =>
       if is_incremental "Input" e
       then match form_attr e with Some s => Some s | None => f end
       else f)
    l None.

(** Whether a run of events leaves a form open. *)
Definition form_is_open (l : list ProcessedRRwebEvent) : bool :=
  match open_form l with Some _ => true | None => false end.

(** The index at which the form tracking starts once the first [n]
    events are handled: 0 at first, and the index after a Navigate event
    whenever that event finds a form open among the events tracked up to
    it.  So it is the index after the last Navigate event that reset the
    form tracking. *)
Fixpoint tracking_start (evs : list ProcessedRRwebEvent) (n : nat) : nat :=
  match n with
  | O => O
  | S i =>
      let r := tracking_start evs i in
      match nth_error evs i with
      | Some e =>
          if is_navigate e && form_is_open (slice r i evs) then S i else r
      | None => r
      end
  end.

(** The events before index [n] seen since the form tracking was last
    reset. *)
Definition tracked (evs : list ProcessedRRwebEvent) (n : nat)
  : list ProcessedRRwebEvent :=
  slice (tracking_start evs n) n evs.

(** The value of the last Input event of a run of events. *)
Definition last_input_value (l : list ProcessedRRwebEvent) : option string :=
  fold_left
    (fun v e => if is_incremental "Input" e then value (details e) else v)
    l None.

(** [st] tracks the form input of the events [pre] of the session [evs]:
    the Input events and the open form since the last reset, and the last
    input value of all of [pre]. *)
Definition form_inv (evs : list ProcessedRRwebEvent) (st : Pass2)
    (pre : list ProcessedRRwebEvent) : Prop :=
  (tracking_start evs (List.length pre) <= List.length pre)%nat
  /\ formInteractions st = inputs_of (tracked evs (List.length pre))
  /\ currentFormId st = open_form (tracked evs (List.length pre))
  /\ lastInputValue st = last_input_value pre.

(** [m] reports the form [fid] as abandoned at the Navigate event of
    index [i]: the events seen since the form tracking was last reset
    leave [fid] open and hold at least 2 Input events, and none of the 10
    events before the Navigate event is a submit click for [fid]. *)
Definition abandoned_on_navigate (c : Ctx) (m : Moment) : Prop :=
  exists i e fid,
    nth_error (c_events c) i = Some e
    /\ is_navigate e = true
    /\ open_form (tracked (c_events c) i) = Some fid
    /\ (2 <= List.length (inputs_of (tracked (c_events c) i)))%nat
    /\ existsb (is_submission fid) (slice (i - 10) i (c_events c)) = false
    /\ m = FormAbandonment (timestamp e) fid
             (List.length (inputs_of (tracked (c_events c) i)))
             (last_input_value (firstn i (c_events c))) (c_url c)
             (Some (getContextAroundEvent (c_events c) i 10)) None (c_sid c).

(** [m] reports the form [fid] as abandoned at the end of the session:
    the events seen since the form tracking was last reset leave [fid]
    open. *)
Definition abandoned_at_end (c : Ctx) (m : Moment) : Prop :=
  exists fid,
    open_form (tracked (c_events c) (List.length (c_events c))) = Some fid
    /\ m = FormAbandonment
             (timestamp
                (last (c_events c) (mkEvent 0 "" no_details None None)))
             fid
             (List.length
                (inputs_of (tracked (c_events c) (List.length (c_events c)))))
             (last_input_value (c_events c))
             (c_url c) None (Some false) (c_sid c).

(** Events of a form session. *)
Definition input_on (t : Z) (form : option string) (v : string)
  : ProcessedRRwebEvent :=
  mkEvent t "IncrementalSnapshot"
    (mkDetails (Some "Input") None (Some "Input") (Some v) None None None
       None None None None)
    None
    (Some (mkElement "INPUT" None None None
             (match form with
              | Some f => Some [("form", f)]
              | None => None
              end)
             None)).

Definition submit_click (t : Z) : ProcessedRRwebEvent :=
  mkEvent t "IncrementalSnapshot"
    (mkDetails (Some "MouseInteraction") (Some "Click") None None None
       None None None None None None)
    None
    (Some (mkElement "BUTTON" None None None (Some [("type", "submit")])
             None)).

Definition submitted_form : list ProcessedRRwebEvent :=
  [input_on 1000 (Some "f1") "a"; input_on 2000 (Some "f1") "ab";
   submit_click 3000; navigate_event 4000 "/done"].

Definition abandoned_form : list ProcessedRRwebEvent :=
  [input_on 1000 (Some "f1") "a"; input_on 2000 (Some "f1") "ab";
   navigate_event 4000 "/done"].

Definition single_input : list ProcessedRRwebEvent :=
  [input_on 1000 (Some "f1") "a"].

Definition mixed_inputs : list ProcessedRRwebEvent :=
  [input_on 1000 None "a"; input_on 2000 (Some "f1") "b";
   navigate_event 3000 "/done"].

(** Two inputs on form f1 and a Navigate event, then a scroll. *)
Definition closed_by_navigation : list ProcessedRRwebEvent :=
  [input_on 1000 (Some "f1") "a"; input_on 2000 (Some "f1") "ab";
   navigate_event 3000 "/next"; incremental 4000 "Scroll"].

(** One input on form f1 before each of two Navigate events. *)
Definition reset_between_inputs : list ProcessedRRwebEvent :=
  [input_on 1000 (Some "f1") "a"; navigate_event 2000 "/x";
   input_on 3000 (Some "f1") "b"; navigate_event 4000 "/y"].

(* ================================================================== *)
(** ** Definitions used to state further properties *)

(** A record whose payload the processor reads without a guard: an
    IncrementalSnapshot or Meta record that has no [data]. *)
Definition unreadable (e : RRwebEvent) : bool :=
  ((raw_type e =? RRwebEventType_IncrementalSnapshot)
   || (raw_type e =? RRwebEventType_Meta))
  && match data e with None => true | Some _ => false end.

(** The raw events of a session, over all its records. *)
Definition raw_events (session : RawSession) : list RRwebEvent :=
  collect_events (records session).

(** The timestamps of a session agree with its metadata. *)
Definition session_in_order (s : ProcessedRRwebData) : Prop :=
  StronglySorted (fun a b => timestamp a <= timestamp b) (events s)
  /\ Forall (fun e => startTime (metadata s) <= timestamp e
                      <= endTime (metadata s)) (events s)
  /\ duration (metadata s) = endTime (metadata s) - startTime (metadata s)
  /\ 0 <= duration (metadata s)
  /\ match events s with
     | [] => startTime (metadata s) = 0 /\ endTime (metadata s) = 0
     | e :: _ => startTime (metadata s) = timestamp e
     end.

(** A file whose records are out of order. *)
Definition unordered_file : FileInput :=
  FileContent
    (Sessions
       [mkRawSession (Some "s1")
          (Some [mkRawRecord (Some [raw_click 30; raw_click 10]);
                 mkRawRecord None;
                 mkRawRecord (Some [raw_click 20])])]).

(** What the loader keeps of an incremental snapshot: neither the
    sampled positions nor the scroll offset. *)
Definition keeps_no_payload (e : ProcessedRRwebEvent) : Prop :=
  type e = "IncrementalSnapshot" ->
  positions (details e) = None /\ key_x (details e) = None.

(** Raw records of a pointer that rests near (5,5), and of a horizontal
    scroll on a viewport 400 px wide. *)
Definition raw_move (t : Z) (px py : Z) : RRwebEvent :=
  mkRRwebEvent RRwebEventType_IncrementalSnapshot t
    (Some (mkRawData (Some 1) None None None None
             (mkDetails None None None None None None None None
                (Some [mkPos px py]) None None))).

Definition raw_scroll (t : Z) (sx : Z) : RRwebEvent :=
  mkRRwebEvent RRwebEventType_IncrementalSnapshot t
    (Some (mkRawData (Some 3) None None (Some 0) None
             (mkDetails None None None None None None None None None
                (Some sx) None))).

Definition raw_viewport (t : Z) (w h : Z) : RRwebEvent :=
  mkRRwebEvent RRwebEventType_Meta t
    (Some (mkRawData None None None None None
             (mkDetails None None None None (Some "/a") None (Some w)
                (Some h) None None None))).

Definition hover_file : FileInput :=
  FileContent
    (Sessions
       [mkRawSession (Some "s1")
          (Some [mkRawRecord
                   (Some [raw_viewport 1000 400 800; raw_move 4000 5 5;
                          raw_move 8000 6 6; raw_move 12000 7 7;
                          raw_scroll 13000 50])])]).

(** The DeadClick moment of the event at index [i]. *)
Definition dead_click_moment (c : Ctx) (i : nat) (e : ProcessedRRwebEvent)
  : Moment :=
  DeadClick (timestamp e) (element e) (c_url c)
    (getContextAroundEvent (c_events c) i 3) (c_sid c).

(** What a RapidScrolling or MultipleSubmissions moment may carry. *)
Definition rapid_scrolling_ok (m : Moment) : Prop :=
  match m with
  | RapidScrolling _ scrollCount dur _ _ _ =>
      (8 <= scrollCount)%nat /\ dur < 5000
  | _ => True
  end.

Definition multiple_submissions_ok (m : Moment) : Prop :=
  match m with
  | MultipleSubmissions _ count _ _ _ _ => (3 <= count <= 21)%nat
  | _ => True
  end.

(** The callback of the [map] in [getContextAroundEvent]. *)
Definition simplify_event (e : ProcessedRRwebEvent) : ProcessedRRwebEvent :=
  mkEvent (timestamp e) (type e) (simplify_details (details e)) None
    (element e).

(** A context event: no [url], at most three sampled positions. *)
Definition context_event (e : ProcessedRRwebEvent) : Prop :=
  url e = None
  /\ match positions (details e) with
     | Some ps => (List.length ps <= 3)%nat
     | None => True
     end.

(** The [sessionId] and [url] keys of a moment. *)
Definition moment_sid (m : Moment) : string :=
  match m with
  | NavigationLoop _ _ _ _ sid | JSError _ _ _ sid
  | RageClick _ _ _ _ _ sid | DeadClick _ _ _ _ sid
  | FormAbandonment _ _ _ _ _ _ _ sid | RapidScrolling _ _ _ _ _ sid
  | MouseHovering _ _ _ _ _ sid | Hesitation _ _ _ _ _ _ sid
  | MultipleSubmissions _ _ _ _ _ sid | HorizontalScrollMobile _ _ _ _ sid
  | ShortSession _ _ _ _ sid | SessionMetrics _ _ _ _ _ _ sid => sid
  end.

Definition moment_url (m : Moment) : option string :=
  match m with
  | NavigationLoop _ u _ _ _ | JSError _ _ u _ | RageClick _ _ _ u _ _
  | DeadClick _ _ u _ _ | FormAbandonment _ _ _ _ u _ _ _
  | RapidScrolling _ _ _ u _ _ | MouseHovering _ _ _ u _ _
  | Hesitation _ _ _ _ u _ _ | MultipleSubmissions _ _ _ u _ _
  | HorizontalScrollMobile _ _ _ u _ | ShortSession _ _ _ u _ => Some u
  | SessionMetrics _ _ _ _ _ _ _ => None
  end.

(** The page a session ends on: the [href] of its last Navigate event
    that has one, [start] when there is none. *)
Definition last_navigated (evs : list ProcessedRRwebEvent) (start : string)
  : string :=
  fold_left
    (fun u e =>
       if is_navigate e && truthy_str (href (details e))
       then match href (details e) with Some h => h | None => u end
       else u)
    evs start.

(** The moments the first loop pushes while it still follows the URL. *)
Definition first_pass_type (m : Moment) : bool :=
  is_type "NavigationLoop" m || is_type "JSError" m.

(** A visit of two pages with a dead click on the first. *)
Definition two_pages : list ProcessedRRwebEvent :=
  [navigate_event 1000 "/first"; click_at 2000 "DIV" 5 5;
   navigate_event 3000 "/second"].

(** The score, in hundredths, of an event [d] ms away ([-1] for NaN). *)
Definition score_of (d : Z) : Z :=
  match toFixed2_shift (relevance_double d) with
  | Some s => s
  | None => -1
  end.

(** [f] does not increase over the [fuel] integers from [d] on, [prev]
    being its value at [d - 1]. *)
Fixpoint descending (fuel : nat) (d : Z) (prev : Z) (f : Z -> Z) : bool :=
  match fuel with
  | O => true
  | S k => let cur := f d in (cur <=? prev) && descending k (d + 1) cur f
  end.

(** [a] is attached with a score no lower than that of [b]. *)
Definition scored_no_lower (a b : RelevantEvent) : Prop :=
  exists sa sb,
    relevanceScore a = Some sa /\ relevanceScore b = Some sb /\ sb <= sa.

(** [c] occurs in [s]. *)
Fixpoint has_char (c : ascii) (s : string) : bool :=
  match s with
  | EmptyString => false
  | String c' s' => (c' =? c)%char || has_char c s'
  end.

(** [b] comes after [a], less than 30 minutes later. *)
Definition follows (D : string -> option Z) (a b : PostHogEvent) : Prop :=
  exists ta tb,
    time_of D a = Some ta /\ time_of D b = Some tb
    /\ 0 <= tb - ta < SESSION_TIMEOUT_MS.

(** A session of external events: named after its first event, every
    event of a user whose identifier starts the name, each event
    following the one before it. *)
Definition group_ok (D : string -> option Z)
    (g : string * list PostHogEvent) : Prop :=
  match snd g with
  | [] => False
  | first :: _ =>
      fst g = session_key D first
      /\ Forall (fun e => prefix (distinct_id e) (fst g) = true) (snd g)
      /\ Forall (fun p => follows D (fst p) (snd p)) (consecutive (snd g))
  end.

(** The events of the sessions were seen no later than [T]. *)
Definition seen_by (D : string -> option Z) (T : Z)
    (sessions : list (string * list PostHogEvent)) : Prop :=
  Forall (fun g =>
            Forall (fun e => exists te, time_of D e = Some te /\ te <= T)
              (snd g))
    sessions.

(** The sessions after the events of [done], the last of them seen at
    [T]. *)
Definition grouped (D : string -> option Z)
    (sessions : list (string * list PostHogEvent))
    (done : list PostHogEvent) (T : Z) : Prop :=
  Permutation done (List.concat (map snd sessions))
  /\ Forall (group_ok D) sessions
  /\ NoDup (map fst sessions)
  /\ seen_by D T sessions.

(** A clock that reads a timestamp as a decimal number of
    milliseconds. *)
Definition decimal_clock (s : string) : option Z :=
  option_map Z.of_int (NilZero.int_of_string s).

Definition external_event (user time : string) : PostHogEvent :=
  mkPostHogEvent "" "$pageview" user [] time None.

(* ================================================================== *)
(** * Properties *)

(** ** Lists, loops and the exception monad *)

Lemma scan_Forall {S A M} (P : M -> Prop) (step : S -> A -> S * list M) :
  (forall st a, Forall P (snd (step st a))) ->
  forall l st, Forall P (snd (scan step st l)).
Proof.
  intros Hstep l; induction l as [|a l IH]; intros st; simpl.
  - constructor.
  - specialize (Hstep st a).
    destruct (step st a) as [st1 out1]; simpl in Hstep.
    specialize (IH st1).
    destruct (scan step st1 l) as [st2 out2]; simpl in *.
    apply Forall_app; split; assumption.
Qed.

Lemma scan_cons {S A M} (step : S -> A -> S * list M) st a l :
  scan step st (a :: l) =
  (fst (scan step (fst (step st a)) l),
   snd (step st a) ++ snd (scan step (fst (step st a)) l)).
Proof.
  simpl. destruct (step st a) as [st1 out1]; simpl.
  destruct (scan step st1 l); reflexivity.
Qed.

Lemma mapM_Normal {A B} (f : A -> Completion B) l bs :
  mapM f l = Normal bs ->
  Forall2 (fun a b => f a = Normal b) l bs.
Proof.
  revert bs; induction l as [|a l IH]; intros bs H; simpl in H.
  - inversion H; constructor.
  - destruct (f a) as [b|e] eqn:Ea; simpl in H; [|discriminate].
    destruct (mapM f l) as [bs'|e] eqn:El; simpl in H; [|discriminate].
    inversion H; subst. constructor; auto.
Qed.

Lemma mapM_Throw {A B} (f : A -> Completion B) l a e :
  In a l -> f a = Throw e -> exists e', mapM f l = Throw e'.
Proof.
  induction l as [|x l IH]; intros Hin Hf; [contradiction|].
  simpl. destruct Hin as [->|Hin].
  - rewrite Hf. simpl. eauto.
  - destruct (f x); simpl; [|eauto].
    destruct (IH Hin Hf) as [e' ->]. simpl. eauto.
Qed.

Lemma emits_nil names : emits names [].
Proof. constructor. Qed.

Lemma emits_app names out1 out2 :
  emits names out1 -> emits names out2 -> emits names (out1 ++ out2).
Proof. intros; apply Forall_app; split; assumption. Qed.

Lemma emits_weaken names names' out :
  incl names names' -> emits names out -> emits names' out.
Proof.
  intros Hincl H. eapply Forall_impl; [|exact H].
  intros m Hm. apply Hincl, Hm.
Qed.

Lemma of_type_app name out1 out2 :
  of_type name (out1 ++ out2) = of_type name out1 ++ of_type name out2.
Proof. apply filter_app. Qed.

Lemma of_type_none name names out :
  emits names out -> ~ In name names -> of_type name out = [].
Proof.
  intros H Hn. induction H as [|m out Hm _ IH]; [reflexivity|].
  unfold of_type in *; simpl. unfold is_type at 1.
  destruct (String.eqb_spec (moment_type m) name) as [E|E].
  - subst. contradiction.
  - exact IH.
Qed.

Lemma of_type_all name out :
  emits [name] out -> of_type name out = out.
Proof.
  intros H. induction H as [|m out Hm _ IH]; [reflexivity|].
  unfold of_type in *; simpl. unfold is_type at 1.
  destruct Hm as [Hm|[]]. rewrite <- Hm, String.eqb_refl.
  f_equal. exact IH.
Qed.

(** ** What each block of the scan can push *)

Ltac emits_block :=
  repeat match goal with
         | |- context [if ?b then _ else _] => destruct b
         | |- context [match ?x with _ => _ end] => destruct x
         end;
  simpl; unfold emits;
  repeat (apply Forall_cons || apply Forall_nil || apply Forall_app
          || split);
  simpl; auto 10.

Lemma click_block_emits c i e clicks lastClick :
  emits ["RageClick"; "DeadClick"]
    (snd (click_block c i e clicks lastClick)).
Proof. unfold click_block. emits_block. Qed.

Lemma navigate_block_emits c i e forms formId lastValue :
  emits ["FormAbandonment"]
    (snd (navigate_block c i e forms formId lastValue)).
Proof. unfold navigate_block. emits_block. Qed.

Lemma scroll_block_emits c i e scrolls lastScroll :
  emits ["RapidScrolling"] (snd (scroll_block c i e scrolls lastScroll)).
Proof. unfold scroll_block. emits_block. Qed.

Lemma hover_block_emits c i e moves lastMove :
  emits ["MouseHovering"] (snd (hover_block c i e moves lastMove)).
Proof. unfold hover_block. emits_block. Qed.

Lemma hesitation_block_emits c i e :
  emits ["Hesitation"] (hesitation_block c i e).
Proof. unfold hesitation_block. emits_block. Qed.

Lemma submission_block_emits c i e :
  emits ["MultipleSubmissions"] (submission_block c i e).
Proof. unfold submission_block. emits_block. Qed.

Lemma viewport_block_emits c e :
  emits ["HorizontalScrollMobile"] (viewport_block c e).
Proof. unfold viewport_block. emits_block. Qed.

(** ** One iteration of the second pass, block by block *)

Lemma pass2_step_out c st i e :
  snd (pass2_step c st (i, e)) =
  snd (click_block c i e (clickEvents st) (lastClickTime st))
  ++ form_out c st i e
  ++ snd (scroll_block c i e (scrollEvents st) (lastScrollTime st))
  ++ snd (hover_block c i e (mouseMovements st) (lastMouseMoveTime st))
  ++ hesitation_block c i e
  ++ submission_block c i e
  ++ viewport_block c e.
Proof.
  unfold pass2_step, form_out, forms_after_input, formId_after_input,
    value_after_input.
  destruct (click_block c i e _ _) as [[? ?] ?].
  destruct (input_block e _ _ _ _) as [[[? ?] ?] ?]; simpl.
  destruct (navigate_block c i e _ _ _) as [[? ?] ?].
  destruct (scroll_block c i e _ _) as [[? ?] ?].
  destruct (hover_block c i e _ _) as [[? ?] ?].
  reflexivity.
Qed.

Lemma pass2_step_state c st i e :
  let st' := fst (pass2_step c st (i, e)) in
  clickEvents st'
  = fst (fst (click_block c i e (clickEvents st) (lastClickTime st)))
  /\ lastClickTime st'
     = snd (fst (click_block c i e (clickEvents st) (lastClickTime st)))
  /\ formInteractions st'
     = fst (fst (navigate_block c i e (forms_after_input st e)
                   (formId_after_input st e) (value_after_input st e)))
  /\ currentFormId st'
     = snd (fst (navigate_block c i e (forms_after_input st e)
                   (formId_after_input st e) (value_after_input st e)))
  /\ lastInputValue st' = value_after_input st e
  /\ mouseMovements st'
     = fst (fst (hover_block c i e (mouseMovements st)
                   (lastMouseMoveTime st)))
  /\ lastMouseMoveTime st'
     = snd (fst (hover_block c i e (mouseMovements st)
                   (lastMouseMoveTime st))).
Proof.
  unfold pass2_step, forms_after_input, formId_after_input,
    value_after_input.
  destruct (click_block c i e _ _) as [[? ?] ?].
  destruct (input_block e _ _ _ _) as [[[? ?] ?] ?]; simpl.
  destruct (navigate_block c i e _ _ _) as [[? ?] ?].
  destruct (scroll_block c i e _ _) as [[? ?] ?].
  destruct (hover_block c i e _ _) as [[? ?] ?].
  simpl. repeat split; reflexivity.
Qed.

Ltac incl_names :=
  let x := fresh in
  let H := fresh in
  intros x H; simpl in H |- *; intuition (subst; auto 12).

Lemma pass2_step_emits c st ie :
  emits pass2_types (snd (pass2_step c st ie)).
Proof.
  destruct ie as [i e]. rewrite pass2_step_out.
  repeat apply emits_app.
  - eapply emits_weaken; [|apply click_block_emits]. incl_names.
  - eapply emits_weaken; [|apply navigate_block_emits]. incl_names.
  - eapply emits_weaken; [|apply scroll_block_emits]. incl_names.
  - eapply emits_weaken; [|apply hover_block_emits]. incl_names.
  - eapply emits_weaken; [|apply hesitation_block_emits]. incl_names.
  - eapply emits_weaken; [|apply submission_block_emits]. incl_names.
  - eapply emits_weaken; [|apply viewport_block_emits]. incl_names.
Qed.

Lemma second_pass_emits session :
  emits pass2_types (snd (second_pass session)).
Proof.
  unfold second_pass. apply scan_Forall. intros; apply pass2_step_emits.
Qed.

Lemma pass1_step_emits sid st e :
  emits ["NavigationLoop"; "JSError"] (snd (pass1_step sid st e)).
Proof. unfold pass1_step. emits_block. Qed.

Lemma first_pass_emits session :
  emits ["NavigationLoop"; "JSError"] (snd (first_pass session)).
Proof.
  unfold first_pass. apply scan_Forall. intros; apply pass1_step_emits.
Qed.

Lemma end_of_session_form_emits c st :
  emits ["FormAbandonment"] (end_of_session_form c st).
Proof. unfold end_of_session_form. emits_block. Qed.

Lemma short_session_emits session p1 :
  emits ["ShortSession"] (short_session session p1).
Proof. unfold short_session. emits_block. Qed.

(** The moments of a session with at least one event, part by part. *)
Lemma extractSession_nonempty session :
  events session <> [] ->
  extractSession session =
  snd (first_pass session) ++ snd (second_pass session)
  ++ end_of_session_form (session_ctx session) (fst (second_pass session))
  ++ short_session session (fst (first_pass session))
  ++ [session_metrics session (fst (first_pass session))].
Proof.
  intros Hne. unfold extractSession.
  destruct (events session); [contradiction|].
  destruct (first_pass session), (second_pass session). reflexivity.
Qed.

(** The moments of one pattern, for a pattern of the second pass. *)
Lemma of_type_extractSession name session :
  In name pass2_types -> name <> "FormAbandonment" ->
  of_type name (extractSession session)
  = of_type name (snd (second_pass session)).
Proof.
  intros Hin Hnf.
  destruct (events session) as [|e0 rest] eqn:Ev.
  - unfold extractSession, second_pass. rewrite Ev. reflexivity.
  - rewrite extractSession_nonempty by (rewrite Ev; discriminate).
    rewrite !of_type_app.
    rewrite (of_type_none name _ _ (first_pass_emits session)).
    2:{ simpl in Hin |- *. intuition (subst; discriminate). }
    rewrite (of_type_none name _ _ (end_of_session_form_emits _ _)).
    2:{ simpl. intuition. }
    rewrite (of_type_none name _ _ (short_session_emits _ _)).
    2:{ simpl in Hin |- *. intuition (subst; discriminate). }
    cbn [app]. unfold of_type at 2. cbn [filter].
    destruct (is_type name (session_metrics _ _)) eqn:E.
    + unfold is_type, session_metrics in E. cbn [moment_type] in E.
      apply String.eqb_eq in E. subst.
      simpl in Hin. intuition discriminate.
    + apply app_nil_r.
Qed.

(** ** The sessions of the event processor *)

Lemma incrementalTypeMap_not_Canvas o :
  name_or_unknown incrementalTypeMap o <> "Canvas".
Proof.
  destruct o as [k|]; [|discriminate].
  unfold name_or_unknown, incrementalTypeMap.
  destruct k as [|p|p]; try discriminate;
    repeat (try discriminate; destruct p as [p|p|]).
Qed.

Lemma eventTypeMap_IncrementalSnapshot t :
  name_or_unknown eventTypeMap (Some t) = "IncrementalSnapshot" ->
  t = RRwebEventType_IncrementalSnapshot.
Proof.
  unfold name_or_unknown, eventTypeMap.
  destruct t as [|p|p]; try discriminate;
    repeat (try discriminate; try reflexivity; destruct p as [p|p|]).
Qed.

Lemma eventTypeMap_not_Navigate t :
  name_or_unknown eventTypeMap (Some t) <> "Navigate".
Proof.
  unfold name_or_unknown, eventTypeMap.
  destruct t as [|p|p]; try discriminate;
    repeat (try discriminate; destruct p as [p|p|]).
Qed.

(** The [type] of a processed event is read off [eventTypeMap]. *)
Lemma processRRwebEvent_type r e :
  processRRwebEvent r = Normal e ->
  type e = name_or_unknown eventTypeMap (Some (raw_type r)).
Proof.
  unfold processRRwebEvent, data_of.
  destruct (raw_type r =? RRwebEventType_IncrementalSnapshot).
  - destruct (data r) as [d|]; simpl; [|discriminate].
    repeat match goal with
           | |- context [if ?b then _ else _] => destruct b
           end; intros H; inversion H; reflexivity.
  - destruct (raw_type r =? RRwebEventType_Meta).
    + destruct (data r) as [d|]; simpl; [|discriminate].
      intros H; inversion H; reflexivity.
    + intros H; inversion H; reflexivity.
Qed.

(** The [incrementalType] of a processed incremental snapshot is read
    off [incrementalTypeMap]. *)
Lemma processRRwebEvent_incrementalType r e :
  processRRwebEvent r = Normal e ->
  raw_type r = RRwebEventType_IncrementalSnapshot ->
  exists o,
    incrementalType (details e)
    = Some (name_or_unknown incrementalTypeMap o).
Proof.
  unfold processRRwebEvent, data_of. intros H Ht. rewrite Ht in H.
  rewrite Z.eqb_refl in H.
  destruct (data r) as [d|]; simpl in H; [|discriminate].
  exists (source d).
  repeat match type of H with
         | context [if ?b then _ else _] => destruct b
         end; inversion H; reflexivity.
Qed.

Lemma processRRwebEvent_never_Canvas r e :
  processRRwebEvent r = Normal e -> is_incremental "Canvas" e = false.
Proof.
  intros H. unfold is_incremental.
  destruct (String.eqb_spec (type e) "IncrementalSnapshot") as [Et|Et];
    [|reflexivity].
  rewrite (processRRwebEvent_type _ _ H) in Et.
  apply eventTypeMap_IncrementalSnapshot in Et.
  destruct (processRRwebEvent_incrementalType _ _ H Et) as [o Ho].
  rewrite Ho. cbn [andb str_is].
  apply String.eqb_neq, incrementalTypeMap_not_Canvas.
Qed.

Lemma processRRwebEvent_never_Navigate r e :
  processRRwebEvent r = Normal e -> is_navigate e = false.
Proof.
  intros H. unfold is_navigate.
  rewrite (processRRwebEvent_type _ _ H).
  apply String.eqb_neq, eventTypeMap_not_Navigate.
Qed.

Lemma mapM_processed_Forall (P : ProcessedRRwebEvent -> Prop) raws evs :
  (forall r e, processRRwebEvent r = Normal e -> P e) ->
  mapM processRRwebEvent raws = Normal evs -> Forall P evs.
Proof.
  intros HP H. apply mapM_Normal in H.
  induction H; constructor; eauto.
Qed.

(** Without an event that passes the Canvas test the first pass records
    no error. *)
Lemma pass1_no_Canvas sid l :
  Forall (fun e => is_incremental "Canvas" e = false) l ->
  forall st,
    errorEvents (fst (scan (pass1_step sid) st l)) = errorEvents st
    /\ of_type "JSError" (snd (scan (pass1_step sid) st l)) = [].
Proof.
  induction 1 as [|e l He _ IH]; intros st; [split; reflexivity|].
  rewrite scan_cons. cbn [fst snd]. rewrite of_type_app.
  destruct (IH (fst (pass1_step sid st e))) as [IH1 IH2].
  rewrite IH1, IH2, app_nil_r.
  unfold pass1_step. rewrite He. cbn [andb].
  destruct (is_navigate e && truthy_str (href (details e)));
    [destruct (_ <=? _)%nat|]; split; reflexivity.
Qed.

(** Without a Navigate event the first pass finds no loop. *)
Lemma pass1_no_Navigate sid l :
  Forall (fun e => is_navigate e = false) l ->
  forall st,
    navigationEvents (fst (scan (pass1_step sid) st l))
    = navigationEvents st
    /\ of_type "NavigationLoop" (snd (scan (pass1_step sid) st l)) = [].
Proof.
  induction 1 as [|e l He _ IH]; intros st; [split; reflexivity|].
  rewrite scan_cons. cbn [fst snd]. rewrite of_type_app.
  destruct (IH (fst (pass1_step sid st e))) as [IH1 IH2].
  rewrite IH1, IH2, app_nil_r.
  unfold pass1_step. rewrite He. cbn [andb].
  destruct (is_incremental "Canvas" e && truthy_str (error (details e)));
    split; reflexivity.
Qed.

Lemma first_pass_no_Canvas session :
  Forall (fun e => is_incremental "Canvas" e = false) (events session) ->
  errorEvents (fst (first_pass session)) = []
  /\ of_type "JSError" (snd (first_pass session)) = [].
Proof. intros H. unfold first_pass. apply (pass1_no_Canvas _ _ H). Qed.

Lemma first_pass_no_Navigate session :
  Forall (fun e => is_navigate e = false) (events session) ->
  navigationEvents (fst (first_pass session)) = []
  /\ of_type "NavigationLoop" (snd (first_pass session)) = [].
Proof. intros H. unfold first_pass. apply (pass1_no_Navigate _ _ H). Qed.

Lemma pattern_moments_emits session :
  emits pattern_types (pattern_moments session).
Proof.
  unfold pattern_moments. repeat apply emits_app.
  - eapply emits_weaken; [|apply first_pass_emits]. incl_names.
  - eapply emits_weaken; [|apply second_pass_emits]. incl_names.
  - eapply emits_weaken; [|apply end_of_session_form_emits]. incl_names.
  - eapply emits_weaken; [|apply short_session_emits]. incl_names.
Qed.

Lemma extractSession_cons sid e rest meta :
  let session := mkSession sid (e :: rest) meta in
  extractSession session
  = pattern_moments session
    ++ [session_metrics session (fst (first_pass session))].
Proof.
  intros session. rewrite extractSession_nonempty by discriminate.
  unfold pattern_moments. rewrite <- !app_assoc. reflexivity.
Qed.

(** C10.  Whatever raw records the event processor is given, the session
    made of its events reports no JSError moment, and every SessionMetrics
    moment of that session has [errorCount = 0]: the detector asks for the
    incremental type ['Canvas'], and the processor's table only has
    ['CanvasMutation']. *)
Theorem JSError_unreachable_after_processing :
  forall raws evs sid meta,
    mapM processRRwebEvent raws = Normal evs ->
    let moments := extractSession (mkSession sid evs meta) in
    of_type "JSError" moments = []
    /\ Forall (fun m => moment_type m = "SessionMetrics" ->
                        errorCount_of m = Some 0%nat) moments.
Proof.
  intros raws evs sid meta H moments.
  assert (Hc : Forall (fun e => is_incremental "Canvas" e = false) evs).
  { eapply mapM_processed_Forall; [|exact H].
    apply processRRwebEvent_never_Canvas. }
  destruct evs as [|e rest]; [split; [reflexivity|constructor]|].
  subst moments. rewrite extractSession_cons.
  set (session := mkSession sid (e :: rest) meta).
  destruct (first_pass_no_Canvas session Hc) as [Herr Hout].
  split.
  - unfold pattern_moments. rewrite !of_type_app, Hout.
    rewrite (of_type_none "JSError" _ _ (second_pass_emits session))
      by (simpl; intuition discriminate).
    rewrite (of_type_none "JSError" _ _ (end_of_session_form_emits _ _))
      by (simpl; intuition discriminate).
    rewrite (of_type_none "JSError" _ _ (short_session_emits _ _))
      by (simpl; intuition discriminate).
    reflexivity.
  - apply Forall_app; split.
    + eapply Forall_impl; [|apply pattern_moments_emits].
      intros m Hin Hm. cbv beta in Hin. rewrite Hm in Hin.
      simpl in Hin. intuition discriminate.
    + constructor; [|constructor]. intros _.
      unfold session_metrics. cbn [errorCount_of].
      rewrite Herr. reflexivity.
Qed.

Lemma JSError_unreachable_after_processing_witness :
  mapM processRRwebEvent [raw_canvas_error 100; raw_canvas_error 200]
  = Normal
      [mkEvent 100 "IncrementalSnapshot"
         (mkDetails (Some "CanvasMutation") None None None None None None
            None None None None) None None;
       mkEvent 200 "IncrementalSnapshot"
         (mkDetails (Some "CanvasMutation") None None None None None None
            None None None None) None None]
  /\ forall sid,
       let moments :=
         extractSession
           (mkSession sid
              [mkEvent 100 "IncrementalSnapshot"
                 (mkDetails (Some "CanvasMutation") None None None None
                    None None None None None None) None None;
               mkEvent 200 "IncrementalSnapshot"
                 (mkDetails (Some "CanvasMutation") None None None None
                    None None None None None None) None None]
              meta0) in
       of_type "JSError" moments = []
       /\ Forall (fun m => moment_type m = "SessionMetrics" ->
                           errorCount_of m = Some 0%nat) moments.
Proof.
  split; [reflexivity|].
  intros sid.
  apply (JSError_unreachable_after_processing
           [raw_canvas_error 100; raw_canvas_error 200]).
  reflexivity.
Defined.

(** ** Sessions of the loader *)

Lemma load_session_events env k session r :
  load_session env k session = Normal r ->
  exists raws, mapM processRRwebEvent raws = Normal (events (fst r)).
Proof.
  unfold load_session.
  destruct (if truthy_str (raw_sessionId session) then _ else _)
    as [sid k'].
  set (allEvents := sort _ _).
  destruct (mapM processRRwebEvent allEvents) as [evs|e] eqn:E;
    simpl; [|discriminate].
  intros H; inversion H; subst; simpl. exists allEvents. exact E.
Qed.

Lemma load_sessions_events env sessions :
  forall k loaded,
    load_sessions env k sessions = Normal loaded ->
    Forall (fun s => exists raws,
                mapM processRRwebEvent raws = Normal (events s)) loaded.
Proof.
  induction sessions as [|session rest IH]; intros k loaded H; simpl in H.
  - inversion H; constructor.
  - destruct (load_session env k session) as [r|e] eqn:E1;
      simpl in H; [|discriminate].
    destruct (load_sessions env (snd r) rest) as [rs|e] eqn:E2;
      simpl in H; [|discriminate].
    inversion H; subst. constructor.
    + eapply load_session_events; eauto.
    + eapply IH; eauto.
Qed.

Lemma loadRRwebData_events env file loaded :
  loadRRwebData env file = Normal loaded ->
  Forall (fun s => exists raws,
              mapM processRRwebEvent raws = Normal (events s)) loaded.
Proof.
  unfold loadRRwebData, loadRRwebData_try.
  destruct file as [| |[| |sessions]];
    try (intros H; inversion H; constructor).
  destruct (load_sessions env 0 sessions) as [l|e] eqn:E.
  - intros H; inversion H; subst. eapply load_sessions_events; eauto.
  - intros H; inversion H; constructor.
Qed.

(** No session that comes out of the processor has a Navigate event, so
    the navigation-loop detector never fires on it. *)
Lemma NavigationLoop_unreachable_after_processing raws session :
  mapM processRRwebEvent raws = Normal (events session) ->
  Forall (fun e => is_navigate e = false) (events session)
  /\ of_type "NavigationLoop" (extractSession session) = [].
Proof.
  intros H.
  assert (Hn : Forall (fun e => is_navigate e = false) (events session)).
  { eapply mapM_processed_Forall; [|exact H].
    apply processRRwebEvent_never_Navigate. }
  split; [exact Hn|].
  destruct (events session) as [|e rest] eqn:Ev.
  - unfold extractSession. rewrite Ev. reflexivity.
  - rewrite extractSession_nonempty by (rewrite Ev; discriminate).
    rewrite <- Ev in Hn.
    destruct (first_pass_no_Navigate session Hn) as [_ Hout].
    rewrite !of_type_app, Hout.
    rewrite (of_type_none "NavigationLoop" _ _ (second_pass_emits session))
      by (simpl; intuition discriminate).
    rewrite (of_type_none "NavigationLoop" _ _
               (end_of_session_form_emits _ _))
      by (simpl; intuition discriminate).
    rewrite (of_type_none "NavigationLoop" _ _ (short_session_emits _ _))
      by (simpl; intuition discriminate).
    reflexivity.
Qed.

Lemma NavigationLoop_unreachable_after_loading env file loaded :
  loadRRwebData env file = Normal loaded ->
  of_type "NavigationLoop" (extractKeyMoments loaded) = [].
Proof.
  intros H. apply loadRRwebData_events in H.
  unfold extractKeyMoments.
  induction H as [|s l [raws Hs] _ IH]; [reflexivity|].
  cbn [flat_map]. rewrite of_type_app, IH, app_nil_r.
  apply (NavigationLoop_unreachable_after_processing raws s Hs).
Qed.

(** C5.  Three navigations to [/a] within two seconds, loaded from raw
    records, report no NavigationLoop: the loader types them ['Meta'],
    and the detector waits for ['Navigate'], a name [eventTypeMap] does
    not have.  The detector itself does what the claim says once it is
    given the same visit as Navigate events: one NavigationLoop with
    [frequency = 3] and [timeWindow = 120000]. *)
Theorem NavigationLoop_missed_on_loaded_session :
  (forall env, loadRRwebData env nav_loop_file = Normal [nav_loop_loaded])
  /\ of_type "NavigationLoop" (extractKeyMoments [nav_loop_loaded]) = []
  /\ Forall (fun e => is_navigate e = false) (events nav_loop_loaded)
  /\ of_type "NavigationLoop" (extractKeyMoments [nav_loop_navigate])
     = [NavigationLoop 3000 "/a" 3 120000 "s1"].
Proof.
  split; [intros env; reflexivity|].
  split; [reflexivity|].
  split; [repeat constructor|reflexivity].
Qed.

(** ** The SessionMetrics moment *)

(** C2 (as amended).  A session with at least one event ends with exactly
    one SessionMetrics moment, after its pattern moments, none of which is
    a SessionMetrics moment; a session with zero events is skipped and
    yields no moment at all. *)
Theorem SessionMetrics_once_per_nonempty_session :
  forall sid meta,
    extractSession (mkSession sid [] meta) = []
    /\ forall e rest,
         let session := mkSession sid (e :: rest) meta in
         extractSession session
         = pattern_moments session
           ++ [session_metrics session (fst (first_pass session))]
         /\ of_type "SessionMetrics" (pattern_moments session) = []
         /\ List.length (of_type "SessionMetrics" (extractSession session))
            = 1%nat.
Proof.
  intros sid meta. split; [reflexivity|].
  intros e rest session.
  assert (Hfront : of_type "SessionMetrics" (pattern_moments session) = []).
  { apply (of_type_none _ _ _ (pattern_moments_emits session)).
    simpl. intuition discriminate. }
  split; [apply extractSession_cons|].
  split; [exact Hfront|].
  subst session. rewrite extractSession_cons, of_type_app, Hfront.
  reflexivity.
Qed.

(** C2 fails as stated: a session with zero events gets no SessionMetrics
    moment. *)
Lemma SessionMetrics_missing_for_empty_session :
  extractKeyMoments [mkSession "quiet" [] meta0] = []
  /\ List.length
       (of_type "SessionMetrics"
          (extractKeyMoments [mkSession "quiet" [] meta0])) <> 1%nat.
Proof. split; [reflexivity|discriminate]. Qed.

(** ** The loader and its failures *)

Lemma collect_events_skips_record rs1 rs2 :
  collect_events (Some (rs1 ++ mkRawRecord None :: rs2))
  = collect_events (Some (rs1 ++ rs2)).
Proof.
  unfold collect_events. rewrite !fold_left_app. reflexivity.
Qed.

(** C7 (as amended).  The load step never throws, whatever the file and
    whatever its records: a missing file, unparsable JSON, a falsy value
    or a value without a sessions array make it return the empty list
    instead of failing with an error, and a record without an events
    array is passed over. *)
Theorem loadRRwebData_never_throws :
  forall env file,
    (exists loaded, loadRRwebData env file = Normal loaded)
    /\ match file with
       | FileContent (Sessions _) => True
       | _ => loadRRwebData env file = Normal []
       end
    /\ forall rs1 rs2,
         collect_events (Some (rs1 ++ mkRawRecord None :: rs2))
         = collect_events (Some (rs1 ++ rs2)).
Proof.
  intros env file. split; [|split].
  - unfold loadRRwebData.
    destruct (loadRRwebData_try env file) as [l|e]; eauto.
  - destruct file as [| |[| |sessions]]; reflexivity || exact I.
  - apply collect_events_skips_record.
Qed.

(** C7 fails as stated: malformed top-level input is answered with an
    empty list, not with an error, and one event without payload empties
    the result for every session of the file. *)
Lemma loadRRwebData_malformed_input_returns_nothing :
  loadRRwebData env_a FileUnparsable = Normal []
  /\ loadRRwebData env_a (FileContent NoSessionsArray) = Normal []
  /\ ~ (exists e, loadRRwebData env_a (FileContent NoSessionsArray)
                  = Throw e)
  /\ List.length
       (match loadRRwebData env_a (FileContent (Sessions [good_session]))
        with Normal l => l | Throw _ => [] end) = 1%nat
  /\ loadRRwebData env_a (FileContent (Sessions [good_session; bad_session]))
     = Normal [].
Proof.
  repeat split; try reflexivity.
  intros [e H]. discriminate H.
Qed.

(** ** Determinism *)

Lemma load_session_identified session :
  truthy_str (raw_sessionId session) = true ->
  exists c : Completion ProcessedRRwebData,
    forall env k,
      load_session env k session = (s <- c ;; Normal (s, k)).
Proof.
  intros Hid. unfold load_session. rewrite Hid.
  set (allEvents := sort _ _).
  destruct (mapM processRRwebEvent allEvents) as [evs|e] eqn:E.
  - eexists (Normal _). intros env k. simpl. reflexivity.
  - exists (Throw e). intros env k. reflexivity.
Qed.

Lemma load_sessions_identified sessions :
  forallb (fun s => truthy_str (raw_sessionId s)) sessions = true ->
  forall env1 env2 k1 k2,
    load_sessions env1 k1 sessions = load_sessions env2 k2 sessions.
Proof.
  induction sessions as [|s rest IH]; intros Hall env1 env2 k1 k2;
    [reflexivity|].
  simpl in Hall. apply andb_true_iff in Hall as [Hs Hrest].
  destruct (load_session_identified s Hs) as [c Hc].
  simpl. rewrite (Hc env1 k1), (Hc env2 k2).
  destruct c as [x|e]; simpl; [|reflexivity].
  rewrite (IH Hrest env1 env2 k1 k2). reflexivity.
Qed.

(** C9 (as amended).  When every session of the file brings its own
    [sessionId], the output of the pipeline (load, extract, join) is the
    same whatever the clock and the random source are: it depends on the
    raw records and the external events only. *)
Theorem pipeline_deterministic_with_session_ids :
  forall Date_getTime env1 env2 file posthogEvents,
    all_sessions_identified file = true ->
    pipeline Date_getTime env1 file posthogEvents
    = pipeline Date_getTime env2 file posthogEvents.
Proof.
  intros D env1 env2 file ph Hid.
  unfold pipeline, loadRRwebData, loadRRwebData_try.
  destruct file as [| |[| |sessions]]; try reflexivity.
  simpl in Hid.
  rewrite (load_sessions_identified sessions Hid env1 env2 0%nat 0%nat).
  reflexivity.
Qed.

Lemma pipeline_deterministic_with_session_ids_witness :
  all_sessions_identified identified_file = true
  /\ pipeline no_date env_a identified_file []
     = pipeline no_date env_b identified_file [].
Proof.
  split; [reflexivity|].
  apply (pipeline_deterministic_with_session_ids no_date env_a env_b
           identified_file []).
  reflexivity.
Defined.

(** C9 fails as stated: for a session without [sessionId] the loader
    makes one up from the clock and the random source, and two runs on
    the same inputs give moments that differ in it. *)
Lemma pipeline_differs_without_session_id :
  pipeline no_date env_a anonymous_file []
  <> pipeline no_date env_b anonymous_file []
  /\ (exists moments,
        pipeline no_date env_a anonymous_file [] = Normal moments
        /\ In (mkSynced (SessionMetrics 10 0 1 0 0 0 "session_1_aaaaaaa") [])
             moments)
  /\ (exists moments,
        pipeline no_date env_b anonymous_file [] = Normal moments
        /\ In (mkSynced (SessionMetrics 10 0 1 0 0 0 "session_2_bbbbbbb") [])
             moments).
Proof.
  split; [|split].
  - vm_compute. intros H. discriminate H.
  - eexists. split; [vm_compute; reflexivity|]. simpl. tauto.
  - eexists. split; [vm_compute; reflexivity|]. simpl. tauto.
Qed.

(** ** Sorting *)

Lemma sort_insert_perm {A} (cmp : A -> A -> Z) x l :
  Permutation (sort_insert cmp x l) (x :: l).
Proof.
  induction l as [|y l IH]; simpl; [reflexivity|].
  destruct (cmp x y <=? 0); [reflexivity|].
  rewrite IH. apply perm_swap.
Qed.

Lemma sort_perm {A} (cmp : A -> A -> Z) l : Permutation (sort cmp l) l.
Proof.
  induction l as [|x l IH]; simpl; [reflexivity|].
  rewrite sort_insert_perm. now apply perm_skip.
Qed.

Section SortByKey.

Context {A : Type} (cmp : A -> A -> Z) (key : A -> Z).

Lemma sort_insert_sorted x l :
  (forall a b, In a (x :: l) -> In b (x :: l) -> cmp a b = key a - key b) ->
  StronglySorted (fun a b => key a <= key b) l ->
  StronglySorted (fun a b => key a <= key b) (sort_insert cmp x l).
Proof.
  intros Hcmp Hs. induction Hs as [|y l Hs IH Hy]; simpl.
  - repeat constructor.
  - rewrite (Hcmp x y) by (simpl; auto).
    destruct (Z.leb_spec (key x - key y) 0) as [Hle|Hgt].
    + constructor; [constructor; assumption|].
      constructor; [lia|].
      eapply Forall_impl; [|exact Hy]. cbv beta. intros; lia.
    + constructor.
      * apply IH. intros a b Ha Hb. apply Hcmp; simpl in *; tauto.
      * rewrite sort_insert_perm. constructor; [lia|exact Hy].
Qed.

Lemma sort_sorted l :
  (forall a b, In a l -> In b l -> cmp a b = key a - key b) ->
  StronglySorted (fun a b => key a <= key b) (sort cmp l).
Proof.
  induction l as [|x l IH]; intros Hcmp; simpl; [constructor|].
  apply sort_insert_sorted.
  - intros a b Ha Hb. apply Hcmp.
    + destruct Ha as [->|Ha]; [left; reflexivity|].
      right. apply (Permutation_in _ (sort_perm cmp l)), Ha.
    + destruct Hb as [->|Hb]; [left; reflexivity|].
      right. apply (Permutation_in _ (sort_perm cmp l)), Hb.
  - apply IH. intros a b Ha Hb. apply Hcmp; right; assumption.
Qed.

End SortByKey.

Lemma StronglySorted_weaken {A} (R R' : A -> A -> Prop) l :
  (forall a b, In a l -> In b l -> R a b -> R' a b) ->
  StronglySorted R l -> StronglySorted R' l.
Proof.
  intros Himp Hs. induction Hs as [|x l Hs IH Hx]; constructor.
  - apply IH. intros a b Ha Hb. apply Himp; right; assumption.
  - rewrite Forall_forall in *. intros b Hb.
    apply Himp; [left; reflexivity|right; exact Hb|apply Hx, Hb].
Qed.

(** ** The relevance score *)

Lemma nearest_integer_shift_eq m e :
  nearest_integer_shift m e = nearest_integer m e.
Proof.
  unfold nearest_integer_shift, nearest_integer.
  destruct (Z.leb_spec 0 e) as [He|He].
  - apply Z.shiftl_mul_pow2, He.
  - rewrite Z.shiftr_div_pow2 by lia.
    rewrite Z.shiftl_mul_pow2 by lia.
    rewrite Z.mul_1_l. reflexivity.
Qed.

Lemma toFixed2_shift_eq f : toFixed2_shift f = toFixed2 f.
Proof.
  destruct f; try reflexivity.
  unfold toFixed2_shift, toFixed2.
  rewrite nearest_integer_shift_eq. reflexivity.
Qed.

Lemma all_from_spec f fuel :
  forall d0,
    all_from fuel d0 f = true ->
    forall d, d0 <= d < d0 + Z.of_nat fuel -> f d = true.
Proof.
  induction fuel as [|k IH]; intros d0 Hall d Hd; [lia|].
  cbn [all_from] in Hall. apply andb_true_iff in Hall as [H0 Hrest].
  destruct (Z.eq_dec d d0) as [->|Hne]; [exact H0|].
  apply (IH (d0 + 1) Hrest). lia.
Qed.

Lemma score_rounded_below_window :
  all_from (Z.to_nat NEARBY_EVENT_WINDOW_MS) 0 score_rounded = true.
(* exhaustive *)
Proof. vm_compute. reflexivity. Qed.

Lemma relevance_rounds d :
  0 <= d < NEARBY_EVENT_WINDOW_MS ->
  exists s, toFixed2 (relevance_double d) = Some s /\ rounds_score d s.
Proof.
  intros Hd.
  pose proof (all_from_spec _ _ _ score_rounded_below_window d) as Hall.
  rewrite Z2Nat.id in Hall by (unfold NEARBY_EVENT_WINDOW_MS; lia).
  specialize (Hall ltac:(lia)).
  unfold score_rounded in Hall. rewrite toFixed2_shift_eq in Hall.
  destruct (toFixed2 (relevance_double d)) as [s|]; [|discriminate].
  exists s. split; [reflexivity|].
  apply andb_true_iff in Hall as [Hall H3].
  apply andb_true_iff in Hall as [H1 H2].
  unfold rounds_score. lia.
Qed.

(** ** The temporal join *)

Lemma is_nearby_spec t e :
  is_nearby t e = true <->
  exists d, time_distance t e = Some d /\ 0 <= d < NEARBY_EVENT_WINDOW_MS.
Proof.
  unfold is_nearby, time_distance.
  destruct (normalizedTimestamp e) as [nt|].
  - rewrite Z.ltb_lt. split.
    + intros H. eexists; split; [reflexivity|]. lia.
    + intros [d [Hd Hlt]]. inversion Hd; subst. lia.
  - split; [discriminate|]. intros [d [Hd _]]. discriminate.
Qed.



(** ** Hesitation *)

Lemma hesitatesb_spec prevEvent event :
  hesitatesb prevEvent event = true <-> hesitates prevEvent event.
Proof.
  unfold hesitatesb, hesitates, str_is.
  rewrite !andb_true_iff, orb_true_iff, !Z.ltb_lt, !String.eqb_eq.
  destruct (incrementalType (details event)) as [ty|].
  - rewrite !String.eqb_eq.
    split; intros H; repeat split; try tauto; try lia.
    + destruct H as [[[_ _] [H|H]] _]; [left|right]; congruence.
    + destruct H as [_ [_ [[H|H] _]]]; [left|right]; congruence.
  - split; intros H.
    + destruct H as [[_ [H|H]] _]; discriminate.
    + destruct H as [_ [_ [[H|H] _]]]; discriminate.
Qed.

(** The hesitation test of an iteration looks at no state. *)
Lemma of_type_Hesitation_step c st i e :
  of_type "Hesitation" (snd (pass2_step c st (i, e)))
  = hesitation_block c i e.
Proof.
  rewrite pass2_step_out, !of_type_app.
  rewrite (of_type_none "Hesitation" _ _ (click_block_emits _ _ _ _ _))
    by (simpl; intuition discriminate).
  unfold form_out.
  rewrite (of_type_none "Hesitation" _ _
             (navigate_block_emits _ _ _ _ _ _))
    by (simpl; intuition discriminate).
  rewrite (of_type_none "Hesitation" _ _ (scroll_block_emits _ _ _ _ _))
    by (simpl; intuition discriminate).
  rewrite (of_type_none "Hesitation" _ _ (hover_block_emits _ _ _ _ _))
    by (simpl; intuition discriminate).
  rewrite (of_type_all "Hesitation" _ (hesitation_block_emits _ _ _)).
  rewrite (of_type_none "Hesitation" _ _ (submission_block_emits _ _ _))
    by (simpl; intuition discriminate).
  rewrite (of_type_none "Hesitation" _ _ (viewport_block_emits _ _))
    by (simpl; intuition discriminate).
  rewrite app_nil_r. reflexivity.
Qed.

Lemma of_type_Hesitation_scan c l :
  forall st,
    of_type "Hesitation" (snd (scan (pass2_step c) st l))
    = flat_map (fun ie => hesitation_block c (fst ie) (snd ie)) l.
Proof.
  induction l as [|[i e] l IH]; intros st; [reflexivity|].
  rewrite scan_cons. cbn [snd fst flat_map].
  rewrite of_type_app, IH, of_type_Hesitation_step. reflexivity.
Qed.

(** From the test by index to the test by pair of neighbours. *)
Lemma hesitation_by_pairs c l :
  forall p j,
    nth_error (c_events c) j = Some p ->
    skipn (S j) (c_events c) = l ->
    flat_map (fun ie => hesitation_block c (fst ie) (snd ie))
      (combine (seq (S j) (List.length l)) l)
    = flat_map (fun ip => if hesitatesb (fst (snd ip)) (snd (snd ip))
                          then [hesitation_moment c (fst ip) (snd ip)]
                          else [])
        (combine (seq j (List.length l)) (combine (p :: l) l)).
Proof.
  induction l as [|e l IH]; intros p j Hp Hl; [reflexivity|].
  cbn [List.length seq combine flat_map fst snd].
  assert (He : nth_error (c_events c) (S j) = Some e).
  { rewrite <- (firstn_skipn (S j) (c_events c)), Hl.
    assert (Hlen : List.length (firstn (S j) (c_events c)) = S j).
    { apply firstn_length_le.
      apply (proj1 (nth_error_Some (c_events c) j)).
      rewrite Hp. discriminate. }
    rewrite nth_error_app2 by lia.
    rewrite Hlen, Nat.sub_diag. reflexivity. }
  assert (Hl' : skipn (S (S j)) (c_events c) = l).
  { change (S (S j)) with (1 + S j)%nat.
    rewrite <- skipn_skipn, Hl. reflexivity. }
  rewrite (IH e (S j) He Hl'). f_equal.
  unfold hesitation_block. rewrite Hp.
  unfold hesitatesb, hesitation_moment.
  rewrite Z.gtb_ltb.
  destruct (10000 <? timestamp e - timestamp p);
    destruct (timestamp e - timestamp p <? 300000);
    destruct (type e =? "IncrementalSnapshot")%string;
    destruct (type p =? "IncrementalSnapshot")%string;
    destruct (str_is (incrementalType (details e)) "MouseInteraction"
              || str_is (incrementalType (details e)) "Input");
    reflexivity.
Qed.

(** C6 (as amended).  The Hesitation moments of a session are those of
    its pairs of consecutive events, one for each pair, in order, whose
    gap is more than 10 s and less than 300 s, whose later event is an
    incremental snapshot of a mouse interaction or an input, and whose
    earlier event is an incremental snapshot of any kind (a Scroll or a
    MouseMove as well); a pair whose earlier event is no incremental
    snapshot gives none. *)
Theorem Hesitation_exactly_on_gaps_after_incremental_events :
  forall session,
    of_type "Hesitation" (extractSession session)
    = flat_map (fun ip => if hesitatesb (fst (snd ip)) (snd (snd ip))
                          then [hesitation_moment (session_ctx session)
                                  (fst ip) (snd ip)]
                          else [])
        (indexed (consecutive (events session)))
    /\ forall prevEvent event,
         hesitatesb prevEvent event = true <->
         10000 < timestamp event - timestamp prevEvent < 300000
         /\ type event = "IncrementalSnapshot"
         /\ (incrementalType (details event) = Some "MouseInteraction"
             \/ incrementalType (details event) = Some "Input")
         /\ type prevEvent = "IncrementalSnapshot".
Proof.
  intros session. split; [|exact hesitatesb_spec].
  rewrite of_type_extractSession
    by (simpl; intuition discriminate || auto 10).
  unfold second_pass. rewrite of_type_Hesitation_scan.
  unfold indexed, consecutive.
  destruct (events session) as [|e0 l] eqn:Ev; [reflexivity|].
  cbn [List.length seq combine flat_map fst snd tl].
  assert (Hc : c_events (session_ctx session) = e0 :: l)
    by (unfold session_ctx; cbn [c_events]; exact Ev).
  replace (hesitation_block (session_ctx session) 0 e0) with (@nil Moment)
    by reflexivity.
  cbn [app].
  rewrite (hesitation_by_pairs (session_ctx session) l e0 0%nat)
    by (rewrite Hc; reflexivity).
  f_equal. f_equal. f_equal.
  clear. revert e0. induction l as [|e l IH]; intros e0; [reflexivity|].
  cbn [combine List.length]. f_equal. apply IH.
Qed.

(** C6 fails as stated: a click 15 s after a Scroll is reported as a
    hesitation, though the earlier event is not interaction-class. *)
Lemma Hesitation_after_scroll :
  of_type "Hesitation"
    (extractSession
       (session_of [incremental 0 "Scroll"; click_at 15000 "BUTTON" 5 5]))
  = [Hesitation 15000 15000 (incremental 0 "Scroll")
       (click_at 15000 "BUTTON" 5 5) ""
       [incremental 0 "Scroll"; click_at 15000 "BUTTON" 5 5] "s"]
  /\ is_incremental "MouseInteraction" (incremental 0 "Scroll") = false
  /\ is_incremental "Input" (incremental 0 "Scroll") = false.
Proof. repeat split; reflexivity. Qed.

(** ** Mouse hovering *)

Lemma of_type_MouseHovering_step c st i e :
  of_type "MouseHovering" (snd (pass2_step c st (i, e)))
  = snd (hover_block c i e (mouseMovements st) (lastMouseMoveTime st)).
Proof.
  rewrite pass2_step_out, !of_type_app.
  rewrite (of_type_none "MouseHovering" _ _ (click_block_emits _ _ _ _ _))
    by (simpl; intuition discriminate).
  unfold form_out.
  rewrite (of_type_none "MouseHovering" _ _
             (navigate_block_emits _ _ _ _ _ _))
    by (simpl; intuition discriminate).
  rewrite (of_type_none "MouseHovering" _ _ (scroll_block_emits _ _ _ _ _))
    by (simpl; intuition discriminate).
  rewrite (of_type_all "MouseHovering" _ (hover_block_emits _ _ _ _ _)).
  rewrite (of_type_none "MouseHovering" _ _
             (hesitation_block_emits _ _ _))
    by (simpl; intuition discriminate).
  rewrite (of_type_none "MouseHovering" _ _
             (submission_block_emits _ _ _))
    by (simpl; intuition discriminate).
  rewrite (of_type_none "MouseHovering" _ _ (viewport_block_emits _ _))
    by (simpl; intuition discriminate).
  rewrite !app_nil_r. reflexivity.
Qed.

Lemma moves_of_snoc pre e :
  moves_of (pre ++ [e])
  = if is_incremental "MouseMove" e then moves_of pre ++ [e]
    else moves_of pre.
Proof.
  unfold moves_of. rewrite filter_app. cbn [filter].
  destruct (is_incremental "MouseMove" e); [reflexivity|apply app_nil_r].
Qed.

Lemma last_move_time_snoc pre e :
  last_move_time (pre ++ [e])
  = if is_incremental "MouseMove" e then timestamp e
    else last_move_time pre.
Proof. unfold last_move_time. rewrite fold_left_app. reflexivity. Qed.

Lemma firstn_prefix {A} (pre l : list A) :
  firstn (List.length pre) (pre ++ l) = pre.
Proof.
  rewrite firstn_app, Nat.sub_diag, firstn_all. cbn [firstn].
  apply app_nil_r.
Qed.

Lemma firstn_prefix_S {A} (pre : list A) e l :
  firstn (S (List.length pre)) (pre ++ e :: l) = pre ++ [e].
Proof.
  replace (pre ++ e :: l) with ((pre ++ [e]) ++ l)
    by (rewrite <- app_assoc; reflexivity).
  replace (S (List.length pre)) with (List.length (pre ++ [e]))
    by (rewrite length_app; simpl; lia).
  apply firstn_prefix.
Qed.

(** One iteration of the hovering test, its tracking variables read off
    the events seen so far. *)
Lemma hover_block_spec c pre e l :
  c_events c = pre ++ e :: l ->
  hover_block c (List.length pre) e (moves_of pre) (last_move_time pre)
  = (moves_of (pre ++ [e]), last_move_time (pre ++ [e]),
     if hovering_at (c_events c) (List.length pre) e
     then [hovering_moment c (List.length pre) e] else []).
Proof.
  intros Hc.
  unfold hover_block, hovering_at, hovering_moment, hover_positions.
  rewrite Hc, firstn_prefix, firstn_prefix_S, <- Hc.
  rewrite moves_of_snoc, last_move_time_snoc.
  destruct (is_incremental "MouseMove" e); [|reflexivity].
  cbn [andb]. rewrite Z.gtb_ltb.
  destruct (3 <=? List.length (moves_of pre ++ [e]))%nat;
    [|reflexivity].
  destruct (3000 <? timestamp e - last_move_time pre); [|reflexivity].
  cbn [andb].
  destruct (forallb position_valid _); [|reflexivity].
  destruct (each_within_prev _); reflexivity.
Qed.

Lemma of_type_MouseHovering_scan c l :
  forall pre st,
    c_events c = pre ++ l ->
    mouseMovements st = moves_of pre ->
    lastMouseMoveTime st = last_move_time pre ->
    of_type "MouseHovering"
      (snd (scan (pass2_step c) st
              (combine (seq (List.length pre) (List.length l)) l)))
    = flat_map (fun ie => if hovering_at (c_events c) (fst ie) (snd ie)
                          then [hovering_moment c (fst ie) (snd ie)]
                          else [])
        (combine (seq (List.length pre) (List.length l)) l).
Proof.
  induction l as [|e l IH]; intros pre st Hc Hm Ht; [reflexivity|].
  cbn [List.length seq combine]. rewrite scan_cons.
  cbn [snd fst flat_map]. rewrite of_type_app, of_type_MouseHovering_step.
  destruct (pass2_step_state c st (List.length pre) e)
    as (_ & _ & _ & _ & _ & Hm' & Ht').
  rewrite Hm, Ht in Hm', Ht' |- *.
  rewrite (hover_block_spec c pre e l Hc) in Hm', Ht' |- *.
  cbn [fst snd] in Hm', Ht' |- *.
  f_equal.
  replace (S (List.length pre)) with (List.length (pre ++ [e]))
    by (rewrite length_app; simpl; lia).
  apply IH; [rewrite <- app_assoc; exact Hc|exact Hm'|exact Ht'].
Qed.

Lemma each_position_valid ps :
  forallb position_valid ps = true <->
  Forall (fun p => pos_x p <> 0 \/ pos_y p <> 0) ps.
Proof.
  rewrite forallb_forall, Forall_forall.
  split; intros H p Hp; specialize (H p Hp); unfold position_valid in *.
  - apply orb_true_iff in H.
    rewrite !negb_true_iff, !Z.eqb_neq in H. exact H.
  - apply orb_true_iff. rewrite !negb_true_iff, !Z.eqb_neq. exact H.
Qed.

(** C8 (as amended).  The MouseHovering moments of a session are those of
    its MouseMove events, one for each, in order, that is at least the
    third MouseMove event, comes more than 3 s after the MouseMove event
    before it (after time 0 for the first), and closes a run of three
    MouseMove events whose first positions (a missing one counts as
    [(0,0)]) are none of them [(0,0)] and each within 30 px on both axes
    of the one before; a single [(0,0)] among the three discards the
    run. *)
Theorem MouseHovering_exactly_on_three_valid_near_samples :
  forall session,
    of_type "MouseHovering" (extractSession session)
    = flat_map (fun ie =>
                  if hovering_at (events session) (fst ie) (snd ie)
                  then [hovering_moment (session_ctx session)
                          (fst ie) (snd ie)]
                  else [])
        (indexed (events session))
    /\ forall evs i e,
         hovering_at evs i e = true <->
         is_incremental "MouseMove" e = true
         /\ (3 <= List.length (moves_of (firstn (S i) evs)))%nat
         /\ 3000 < timestamp e - last_move_time (firstn i evs)
         /\ Forall (fun p => pos_x p <> 0 \/ pos_y p <> 0)
              (hover_positions evs i)
         /\ each_within_prev (hover_positions evs i) = true.
Proof.
  intros session. split.
  - rewrite of_type_extractSession
      by (simpl; intuition discriminate || auto 10).
    unfold second_pass, indexed.
    apply (of_type_MouseHovering_scan (session_ctx session)
             (events session) [] pass2_init); reflexivity.
  - intros evs i e. unfold hovering_at.
    rewrite !andb_true_iff, Nat.leb_le, Z.ltb_lt, each_position_valid.
    tauto.
Qed.

(** C8 fails as stated: of three near MouseMove samples more than 3 s
    apart, one at [(0,0)] between two valid ones discards the hover,
    which the same samples without it report. *)
Lemma MouseHovering_discarded_by_one_origin_sample :
  of_type "MouseHovering"
    (extractSession
       (session_of [move_at 4000 5 5; move_at 8000 0 0; move_at 12000 6 6]))
  = []
  /\ of_type "MouseHovering"
       (extractSession
          (session_of
             [move_at 4000 5 5; move_at 8000 7 7; move_at 12000 6 6]))
     = [MouseHovering 12000 8000 (mkPos 6 6) ""
          [move_at 4000 5 5; move_at 8000 7 7; move_at 12000 6 6] "s"].
Proof. split; reflexivity. Qed.

(** ** Rage clicks *)

Lemma of_type_RageClick_step c st i e :
  of_type "RageClick" (snd (pass2_step c st (i, e)))
  = of_type "RageClick"
      (snd (click_block c i e (clickEvents st) (lastClickTime st))).
Proof.
  rewrite pass2_step_out, !of_type_app.
  unfold form_out.
  rewrite (of_type_none "RageClick" _ _ (navigate_block_emits _ _ _ _ _ _))
    by (simpl; intuition discriminate).
  rewrite (of_type_none "RageClick" _ _ (scroll_block_emits _ _ _ _ _))
    by (simpl; intuition discriminate).
  rewrite (of_type_none "RageClick" _ _ (hover_block_emits _ _ _ _ _))
    by (simpl; intuition discriminate).
  rewrite (of_type_none "RageClick" _ _ (hesitation_block_emits _ _ _))
    by (simpl; intuition discriminate).
  rewrite (of_type_none "RageClick" _ _ (submission_block_emits _ _ _))
    by (simpl; intuition discriminate).
  rewrite (of_type_none "RageClick" _ _ (viewport_block_emits _ _))
    by (simpl; intuition discriminate).
  rewrite !app_nil_r. reflexivity.
Qed.

Lemma filter_length_le {A} (f : A -> bool) l :
  (List.length (filter f l) <= List.length l)%nat.
Proof.
  induction l as [|a l IH]; simpl; [lia|].
  destruct (f a); simpl; lia.
Qed.

(** One iteration of the click block against one step of the clusters. *)
Lemma click_block_spec c i e clicks lastClick :
  is_click_or_mousedown e = true ->
  let n := List.length (filter (same_area e) (clicks ++ [e])) in
  fst (click_block c i e clicks lastClick)
  = (if timestamp e - lastClick <? 1000
     then if (3 <=? n)%nat then [] else clicks ++ [e]
     else [e],
     timestamp e)
  /\ of_type "RageClick" (snd (click_block c i e clicks lastClick))
     = if (timestamp e - lastClick <? 1000) && (3 <=? n)%nat
       then [rage_moment c (i, e, n)] else [].
Proof.
  intros Hc n. unfold click_block. rewrite Hc.
  unfold MAX_RAGE_CLICK_INTERVAL.
  assert (Hdead : forall out,
             of_type "RageClick"
               (out ++ (if is_dead_click_target e
                        then [DeadClick (timestamp e) (element e) (c_url c)
                                (getContextAroundEvent (c_events c) i 3)
                                (c_sid c)]
                        else []))
             = of_type "RageClick" out).
  { intros out. rewrite of_type_app.
    destruct (is_dead_click_target e); cbn; apply app_nil_r. }
  destruct (timestamp e - lastClick <? 1000); cbn [andb].
  - destruct (3 <=? List.length (clicks ++ [e]))%nat eqn:Elen.
    + fold n. destruct (3 <=? n)%nat; cbn [fst snd];
        rewrite Hdead; split; reflexivity.
    + assert (Hn : (3 <=? n)%nat = false).
      { apply Nat.leb_gt. apply Nat.leb_gt in Elen.
        pose proof (filter_length_le (same_area e) (clicks ++ [e])).
        subst n. lia. }
      rewrite Hn. cbn [fst snd]. rewrite Hdead. split; reflexivity.
  - cbn [fst snd]. rewrite Hdead. split; reflexivity.
Qed.

Lemma click_block_other c i e clicks lastClick :
  is_click_or_mousedown e = false ->
  click_block c i e clicks lastClick = (clicks, lastClick, []).
Proof. intros H. unfold click_block. rewrite H. reflexivity. Qed.

Lemma of_type_RageClick_scan c l :
  forall st,
    of_type "RageClick" (snd (scan (pass2_step c) st l))
    = map (rage_moment c)
        (rage_clusters (clickEvents st) (lastClickTime st) (clicks_of l)).
Proof.
  induction l as [|[i e] l IH]; intros st; [reflexivity|].
  rewrite scan_cons. cbn [snd fst].
  rewrite of_type_app, of_type_RageClick_step, IH.
  destruct (pass2_step_state c st i e) as (Hc & Ht & _).
  rewrite Hc, Ht. unfold clicks_of. cbn [filter snd].
  destruct (is_click_or_mousedown e) eqn:Ec.
  - destruct (click_block_spec c i e (clickEvents st) (lastClickTime st) Ec)
      as [Hst Hout].
    rewrite Hout, Hst. cbn [fst snd rage_clusters].
    destruct (timestamp e - lastClickTime st <? 1000); cbn [andb];
      [|reflexivity].
    destruct (3 <=? _)%nat; reflexivity.
  - rewrite (click_block_other _ _ _ _ _ Ec). reflexivity.
Qed.

Lemma rage_clusters_count clicks :
  forall cluster prev,
    Forall (fun r => (3 <= snd r)%nat
                     /\ is_click_or_mousedown (snd (fst r)) = true)
      (rage_clusters cluster prev (clicks_of clicks)).
Proof.
  induction clicks as [|[i e] l IH]; intros cluster prev; [constructor|].
  unfold clicks_of. cbn [filter snd].
  destruct (is_click_or_mousedown e) eqn:Ec; [|apply IH].
  cbn [rage_clusters].
  destruct (timestamp e - prev <? 1000); [|apply IH].
  destruct (3 <=? _)%nat eqn:En; [|apply IH].
  constructor; [|apply IH].
  cbn [snd fst]. split; [apply Nat.leb_le, En|exact Ec].
Qed.

(** C3 (as amended).  The RageClick moments of a session are those of its
    click clusters: a click or mouse-down event is reported exactly when
    it comes less than 1000 ms after the click or mouse-down event before
    it (after time 0 for the first) and the cluster it joins, the clicks
    since the last gap of 1000 ms or more or since the last report, holds
    at least 3 events whose element lies within 20 px of its own on both
    axes; [clickCount] is their number.  Three clicks at (100,100),
    (105,102), (110,95) at 0, 300, 600 give one RageClick with
    [clickCount = 3], and a 4th click at 2000 adds none and is left alone
    in a new cluster. *)
Theorem RageClick_exactly_on_click_clusters :
  forall session,
    let clusters :=
      rage_clusters [] 0 (clicks_of (indexed (events session))) in
    of_type "RageClick" (extractSession session)
    = map (rage_moment (session_ctx session)) clusters
    /\ Forall (fun r => (3 <= snd r)%nat
                        /\ is_click_or_mousedown (snd (fst r)) = true)
         clusters
    /\ of_type "RageClick" (extractSession (session_of three_clicks))
       = [RageClick 600 3 (element (click_at 600 "BUTTON" 110 95)) ""
            three_clicks "s"]
    /\ of_type "RageClick" (extractSession (session_of four_clicks))
       = [RageClick 600 3 (element (click_at 600 "BUTTON" 110 95)) ""
            four_clicks "s"]
    /\ clickEvents (fst (second_pass (session_of four_clicks)))
       = [click_at 2000 "BUTTON" 110 95].
Proof.
  intros session clusters. split; [|split].
  - rewrite of_type_extractSession
      by (simpl; intuition discriminate || auto 10).
    unfold second_pass. apply of_type_RageClick_scan.
  - apply rage_clusters_count.
  - repeat split; reflexivity.
Qed.

(** C3 fails as stated, both ways: three clicks on one spot 900 ms apart
    each are reported although no window of 1000 ms holds them, and of
    four clicks on one spot within 300 ms only the third is reported,
    although the fourth has three clicks within its last 1000 ms. *)
Lemma RageClick_is_not_a_rolling_window :
  of_type "RageClick" (extractSession (session_of slow_clicks))
  = [RageClick 6800 3 (element (click_at 6800 "BUTTON" 50 50)) ""
       slow_clicks "s"]
  /\ 6800 - 5000 >= 1000
  /\ of_type "RageClick" (extractSession (session_of fast_clicks))
     = [RageClick 200 3 (element (click_at 200 "BUTTON" 50 50)) ""
          fast_clicks "s"].
Proof. repeat split; try reflexivity. lia. Qed.

(** ** Form abandonment *)

Lemma of_type_FormAbandonment_step c st i e :
  of_type "FormAbandonment" (snd (pass2_step c st (i, e)))
  = form_out c st i e.
Proof.
  rewrite pass2_step_out, !of_type_app.
  rewrite (of_type_none "FormAbandonment" _ _
             (click_block_emits _ _ _ _ _))
    by (simpl; intuition discriminate).
  unfold form_out.
  rewrite (of_type_all "FormAbandonment" _
             (navigate_block_emits _ _ _ _ _ _)).
  rewrite (of_type_none "FormAbandonment" _ _
             (scroll_block_emits _ _ _ _ _))
    by (simpl; intuition discriminate).
  rewrite (of_type_none "FormAbandonment" _ _
             (hover_block_emits _ _ _ _ _))
    by (simpl; intuition discriminate).
  rewrite (of_type_none "FormAbandonment" _ _
             (hesitation_block_emits _ _ _))
    by (simpl; intuition discriminate).
  rewrite (of_type_none "FormAbandonment" _ _
             (submission_block_emits _ _ _))
    by (simpl; intuition discriminate).
  rewrite (of_type_none "FormAbandonment" _ _ (viewport_block_emits _ _))
    by (simpl; intuition discriminate).
  rewrite !app_nil_r. reflexivity.
Qed.

(** The form tracking of an Input event. *)
Lemma input_block_spec e forms formId lastTime lastValue :
  input_block e forms formId lastTime lastValue
  = if is_incremental "Input" e
    then (forms ++ [e],
          match form_attr e with Some s => Some s | None => formId end,
          timestamp e, value (details e))
    else (forms, formId, lastTime, lastValue).
Proof.
  unfold input_block, form_attr.
  destruct (is_incremental "Input" e); [|reflexivity].
  destruct (element e) as [el|]; [|reflexivity].
  destruct (attr_truthy el "form") eqn:Ea; [|reflexivity].
  unfold attr_truthy in Ea.
  destruct (attributes el) as [a|]; [|discriminate].
  unfold str_or. rewrite Ea.
  destruct (attr a "form"); [reflexivity|discriminate].
Qed.

Lemma inputs_of_snoc l e :
  inputs_of (l ++ [e])
  = if is_incremental "Input" e then inputs_of l ++ [e] else inputs_of l.
Proof.
  unfold inputs_of. rewrite filter_app. cbn [filter].
  destruct (is_incremental "Input" e); [reflexivity|apply app_nil_r].
Qed.

Lemma open_form_snoc l e :
  open_form (l ++ [e])
  = if is_incremental "Input" e
    then match form_attr e with Some s => Some s | None => open_form l end
    else open_form l.
Proof. unfold open_form. rewrite fold_left_app. reflexivity. Qed.

Lemma skipn_snoc {A} r (pre : list A) e :
  (r <= List.length pre)%nat ->
  skipn r (pre ++ [e]) = skipn r pre ++ [e].
Proof.
  intros Hr. rewrite skipn_app.
  replace (r - List.length pre)%nat with 0%nat by lia. reflexivity.
Qed.

Lemma slice_prefix {A} r (pre l : list A) :
  (r <= List.length pre)%nat ->
  slice r (List.length pre) (pre ++ l) = skipn r pre.
Proof.
  intros Hr. unfold slice. rewrite skipn_app.
  replace (r - List.length pre)%nat with 0%nat by lia. cbn [skipn].
  rewrite firstn_app, length_skipn, Nat.sub_diag. cbn [firstn].
  rewrite app_nil_r. apply firstn_all2. rewrite length_skipn. lia.
Qed.

Lemma navigate_not_incremental ty e :
  is_navigate e = true -> is_incremental ty e = false.
Proof.
  unfold is_navigate, is_incremental. intros H.
  apply String.eqb_eq in H. rewrite H. reflexivity.
Qed.

Lemma nth_error_middle {A} (pre : list A) e l :
  nth_error (pre ++ e :: l) (List.length pre) = Some e.
Proof.
  rewrite nth_error_app2 by lia. rewrite Nat.sub_diag. reflexivity.
Qed.

Lemma open_form_names l :
  forall fid,
    open_form l = Some fid ->
    exists e,
      In e l /\ is_incremental "Input" e = true /\ form_attr e = Some fid.
Proof.
  induction l as [|e l IH] using rev_ind; intros fid H; [discriminate|].
  rewrite open_form_snoc in H.
  destruct (is_incremental "Input" e) eqn:Ei.
  - destruct (form_attr e) as [s|] eqn:Ef.
    + inversion H; subst. exists e. split; [|auto].
      apply in_or_app. right. left. reflexivity.
    + destruct (IH fid H) as (e' & Hin & He').
      exists e'. split; [apply in_or_app; left; exact Hin|exact He'].
  - destruct (IH fid H) as (e' & Hin & He').
    exists e'. split; [apply in_or_app; left; exact Hin|exact He'].
Qed.

Lemma form_attr_truthy e fid :
  form_attr e = Some fid -> truthy_str (Some fid) = true.
Proof.
  unfold form_attr, attr_truthy.
  destruct (element e) as [el|]; [|discriminate].
  destruct (attributes el) as [a|]; [|discriminate].
  destruct (truthy_str (attr a "form")) eqn:E; [|discriminate].
  intros H. rewrite H in E. exact E.
Qed.

(** An open form has a non-empty identifier and at least one Input
    event behind it, so the guard of the source on the tracking variables
    is the test that a form is open. *)
Lemma open_form_truthy l fid :
  open_form l = Some fid ->
  truthy_str (Some fid) = true /\ (0 < List.length (inputs_of l))%nat.
Proof.
  intros H. destruct (open_form_names l fid H) as (e & Hin & Hi & Hf).
  split; [exact (form_attr_truthy e fid Hf)|].
  assert (Hin' : In e (inputs_of l)) by (apply filter_In; auto).
  destruct (inputs_of l); [contradiction|simpl; lia].
Qed.

Lemma form_guard l :
  truthy_str (open_form l) && (0 <? List.length (inputs_of l))%nat
  = form_is_open l.
Proof.
  unfold form_is_open. destruct (open_form l) as [fid|] eqn:Eo;
    [|reflexivity].
  destruct (open_form_truthy l fid Eo) as [Ht Hl].
  rewrite Ht. apply Nat.ltb_lt in Hl. rewrite Hl. reflexivity.
Qed.

Lemma last_input_value_snoc l e :
  last_input_value (l ++ [e])
  = if is_incremental "Input" e then value (details e)
    else last_input_value l.
Proof. unfold last_input_value. rewrite fold_left_app. reflexivity. Qed.

Lemma tracking_start_snoc pre e l :
  tracking_start (pre ++ e :: l) (S (List.length pre))
  = if is_navigate e
       && form_is_open (tracked (pre ++ e :: l) (List.length pre))
    then S (List.length pre)
    else tracking_start (pre ++ e :: l) (List.length pre).
Proof. cbn [tracking_start]. rewrite nth_error_middle. reflexivity. Qed.

Lemma tracked_prefix evs pre l :
  evs = pre ++ l ->
  (tracking_start evs (List.length pre) <= List.length pre)%nat ->
  tracked evs (List.length pre)
  = skipn (tracking_start evs (List.length pre)) pre.
Proof. intros -> H. unfold tracked. apply slice_prefix, H. Qed.

Lemma slice_snoc {A} r (pre : list A) e l :
  (r <= List.length pre)%nat ->
  slice r (S (List.length pre)) (pre ++ e :: l) = skipn r pre ++ [e].
Proof.
  intros Hr.
  replace (pre ++ e :: l) with ((pre ++ [e]) ++ l)
    by (rewrite <- app_assoc; reflexivity).
  replace (S (List.length pre)) with (List.length (pre ++ [e]))
    by (rewrite length_app; simpl; lia).
  rewrite slice_prefix by (rewrite length_app; simpl; lia).
  apply skipn_snoc, Hr.
Qed.

Lemma slice_empty {A} n (l : list A) : slice n n l = [].
Proof. unfold slice. rewrite Nat.sub_diag. reflexivity. Qed.

(** The abandonment test of an iteration, on tracking variables that
    follow the events since the form tracking was last reset. *)
Lemma navigate_block_tracked c pre e l forms1 formId1 lv :
  c_events c = pre ++ e :: l ->
  (tracking_start (c_events c) (List.length pre) <= List.length pre)%nat ->
  forms1 = inputs_of (tracked (c_events c) (List.length pre) ++ [e]) ->
  formId1 = open_form (tracked (c_events c) (List.length pre) ++ [e]) ->
  lv = last_input_value (pre ++ [e]) ->
  Forall (abandoned_on_navigate c)
    (snd (navigate_block c (List.length pre) e forms1 formId1 lv))
  /\ (tracking_start (c_events c) (S (List.length pre))
      <= S (List.length pre))%nat
  /\ fst (fst (navigate_block c (List.length pre) e forms1 formId1 lv))
     = inputs_of (tracked (c_events c) (S (List.length pre)))
  /\ snd (fst (navigate_block c (List.length pre) e forms1 formId1 lv))
     = open_form (tracked (c_events c) (S (List.length pre))).
Proof.
  intros Hc Hr Hforms1 HformId1 Hlv.
  assert (Hstart := tracking_start_snoc pre e l).
  rewrite <- Hc in Hstart.
  assert (Htr := tracked_prefix (c_events c) pre (e :: l) Hc Hr).
  assert (Hkeep :
            tracking_start (c_events c) (S (List.length pre))
            = tracking_start (c_events c) (List.length pre) ->
            tracked (c_events c) (S (List.length pre))
            = tracked (c_events c) (List.length pre) ++ [e]).
  { intros Heq. unfold tracked at 1. rewrite Heq, Htr.
    rewrite Hc at 2. apply slice_snoc. exact Hr. }
  assert (Hfn : firstn (List.length pre) (c_events c) = pre)
    by (rewrite Hc; apply firstn_prefix).
  unfold navigate_block.
  destruct (is_navigate e) eqn:Enav.
  - rewrite inputs_of_snoc in Hforms1. rewrite open_form_snoc in HformId1.
    rewrite last_input_value_snoc in Hlv.
    rewrite (navigate_not_incremental "Input" e Enav)
      in Hforms1, HformId1, Hlv.
    cbn [andb] in Hstart |- *.
    rewrite Hforms1, HformId1, form_guard.
    destruct (form_is_open (tracked (c_events c) (List.length pre)))
      eqn:Eopen.
    + cbn [fst snd]. split; [|split; [lia|]].
      * destruct (negb _ && _) eqn:Eemit; [|constructor].
        apply andb_true_iff in Eemit as [Esub Elen].
        apply negb_true_iff in Esub. apply Nat.leb_le in Elen.
        constructor; [|constructor].
        unfold form_is_open in Eopen.
        destruct (open_form (tracked (c_events c) (List.length pre)))
          as [fid|] eqn:Eo; [|discriminate].
        exists (List.length pre), e, fid.
        repeat split; try assumption.
        -- rewrite Hc. apply nth_error_middle.
        -- rewrite Hlv, Hfn. reflexivity.
      * unfold tracked. rewrite Hstart, slice_empty. split; reflexivity.
    + cbn [fst snd]. split; [constructor|].
      rewrite (Hkeep Hstart), inputs_of_snoc, open_form_snoc.
      rewrite (navigate_not_incremental "Input" e Enav).
      rewrite Hstart. repeat split. lia.
  - cbn [andb] in Hstart |- *. cbn [fst snd].
    split; [constructor|].
    rewrite (Hkeep Hstart), Hstart, Hforms1, HformId1.
    repeat split. lia.
Qed.

(** One iteration keeps the form tracking and only reports an abandoned
    form on navigation. *)
Lemma form_step c st pre e l :
  c_events c = pre ++ e :: l ->
  form_inv (c_events c) st pre ->
  Forall (abandoned_on_navigate c) (form_out c st (List.length pre) e)
  /\ form_inv (c_events c) (fst (pass2_step c st (List.length pre, e)))
       (pre ++ [e]).
Proof.
  intros Hc (Hr & Hf & Hid & Hlv).
  destruct (pass2_step_state c st (List.length pre) e)
    as (_ & _ & Hf' & Hid' & Hlv' & _).
  unfold form_inv.
  replace (List.length (pre ++ [e])) with (S (List.length pre))
    by (rewrite length_app; simpl; lia).
  rewrite Hf', Hid', Hlv'. clear Hf' Hid' Hlv'.
  unfold form_out.
  assert (Hval : value_after_input st e = last_input_value (pre ++ [e])).
  { unfold value_after_input. rewrite input_block_spec, Hlv.
    rewrite last_input_value_snoc.
    destruct (is_incremental "Input" e); reflexivity. }
  destruct (navigate_block_tracked c pre e l (forms_after_input st e)
              (formId_after_input st e) (value_after_input st e) Hc Hr)
    as (Hout & Hr' & Hforms & Hform); try assumption.
  - unfold forms_after_input. rewrite input_block_spec, Hf.
    rewrite inputs_of_snoc.
    destruct (is_incremental "Input" e); reflexivity.
  - unfold formId_after_input. rewrite input_block_spec, Hid.
    rewrite open_form_snoc.
    destruct (is_incremental "Input" e); reflexivity.
  - repeat split; assumption.
Qed.

Lemma form_scan c l :
  forall pre st,
    c_events c = pre ++ l ->
    form_inv (c_events c) st pre ->
    let run :=
      scan (pass2_step c) st
        (combine (seq (List.length pre) (List.length l)) l) in
    Forall (abandoned_on_navigate c) (of_type "FormAbandonment" (snd run))
    /\ form_inv (c_events c) (fst run) (pre ++ l).
Proof.
  induction l as [|e l IH]; intros pre st Hc Hinv run; subst run.
  - cbn. split; [constructor|]. rewrite app_nil_r. exact Hinv.
  - cbn [List.length seq combine]. rewrite scan_cons. cbn [fst snd].
    rewrite of_type_app, of_type_FormAbandonment_step.
    destruct (form_step c st pre e l Hc Hinv) as [Hout Hinv'].
    assert (Hc' : c_events c = (pre ++ [e]) ++ l)
      by (rewrite <- app_assoc; exact Hc).
    specialize (IH (pre ++ [e]) _ Hc' Hinv').
    rewrite length_app in IH. cbn [List.length] in IH.
    rewrite Nat.add_1_r in IH. destruct IH as [IH1 IH2].
    split.
    + apply Forall_app; split; assumption.
    + rewrite <- app_assoc in IH2. exact IH2.
Qed.

Lemma second_pass_form session :
  Forall (abandoned_on_navigate (session_ctx session))
    (of_type "FormAbandonment" (snd (second_pass session)))
  /\ form_inv (events session) (fst (second_pass session)) (events session).
Proof.
  assert (Hinit : form_inv (events session) pass2_init []).
  { repeat split; reflexivity || (simpl; lia). }
  pose proof (form_scan (session_ctx session) (events session) []
                pass2_init eq_refl Hinit) as H.
  cbv zeta in H. exact H.
Qed.

(** C4 (as amended).  A FormAbandonment moment is reported only for a
    form that an Input event, since the form tracking was last reset, has
    named, and only in one of two places: at a Navigate event, when at
    least 2 Input events (naming a form or not) have been seen since the
    reset and none of the 10 events before the Navigate event is a click
    on a submit button or on an element bound to that form; or at the end
    of the session, when the form is still open.  The form tracking is
    reset by every Navigate event that finds a form open, and by nothing
    else: the events counted are those after the last such Navigate
    event.  Two inputs on form f1, a submit click and a Navigate event
    report no abandonment; without the click they report one, with
    [interactionCount = 2], and none more at the end of the session; one
    input before each of two Navigate events reports none. *)
Theorem FormAbandonment_only_for_open_forms :
  forall session,
    let c := session_ctx session in
    Forall (fun m => abandoned_on_navigate c m \/ abandoned_at_end c m)
      (of_type "FormAbandonment" (extractSession session))
    /\ (forall l fid,
          open_form l = Some fid ->
          exists e,
            In e l /\ is_incremental "Input" e = true
            /\ form_attr e = Some fid)
    /\ (forall evs i e,
          nth_error evs i = Some e ->
          tracking_start evs 0 = 0%nat
          /\ tracking_start evs (S i)
             = if is_navigate e && form_is_open (tracked evs i)
               then S i else tracking_start evs i)
    /\ of_type "FormAbandonment" (extractSession (session_of submitted_form))
       = []
    /\ of_type "FormAbandonment" (extractSession (session_of abandoned_form))
       = [FormAbandonment 4000 "f1" 2 (Some "ab") "/done"
            (Some (getContextAroundEvent abandoned_form 2 10)) None "s"]
    /\ of_type "FormAbandonment"
         (extractSession (session_of closed_by_navigation))
       = [FormAbandonment 3000 "f1" 2 (Some "ab") "/next"
            (Some (getContextAroundEvent closed_by_navigation 2 10)) None
            "s"]
    /\ of_type "FormAbandonment"
         (extractSession (session_of reset_between_inputs))
       = [].
Proof.
  intros session c. split; [|split; [exact open_form_names|]].
  2:{ split; [|repeat split; reflexivity].
      intros evs i e He. split; [reflexivity|].
      cbn [tracking_start]. rewrite He. reflexivity. }
  destruct (events session) as [|e0 rest] eqn:Ev.
  { unfold extractSession. rewrite Ev. constructor. }
  rewrite extractSession_nonempty by (rewrite Ev; discriminate).
  rewrite !of_type_app.
  rewrite (of_type_none "FormAbandonment" _ _ (first_pass_emits session))
    by (simpl; intuition discriminate).
  rewrite (of_type_all "FormAbandonment" _
             (end_of_session_form_emits _ _)).
  rewrite (of_type_none "FormAbandonment" _ _ (short_session_emits _ _))
    by (simpl; intuition discriminate).
  cbn [app].
  replace (of_type "FormAbandonment" [session_metrics _ _]) with (@nil Moment)
    by reflexivity.
  rewrite app_nil_r.
  destruct (second_pass_form session) as [Hout Hinv].
  apply Forall_app; split.
  - eapply Forall_impl; [|exact Hout]. intros m Hm. left. exact Hm.
  - unfold end_of_session_form.
    destruct (truthy_str _ && _) eqn:Eg; [|constructor].
    constructor; [|constructor]. right.
    destruct Hinv as (_ & Hf & Hid & Hlv).
    apply andb_true_iff in Eg as [Etr _].
    fold c. rewrite Hid in Etr |- *. rewrite Hf, Hlv.
    destruct (open_form (tracked (events session)
                           (List.length (events session))))
      as [fid|] eqn:Eo; [|discriminate].
    exists fid. split; [exact Eo|reflexivity].
Qed.

(** C4 fails as stated: one Input event on a form and nothing else is
    reported as abandoned at the end of the session, and of two Input
    events before a navigation only one need name the form. *)
Lemma FormAbandonment_with_one_form_input :
  of_type "FormAbandonment" (extractSession (session_of single_input))
  = [FormAbandonment 1000 "f1" 1 (Some "a") "" None (Some false) "s"]
  /\ of_type "FormAbandonment" (extractSession (session_of mixed_inputs))
     = [FormAbandonment 3000 "f1" 2 (Some "b") "/done"
          (Some (getContextAroundEvent mixed_inputs 2 10)) None "s"]
  /\ form_attr (input_on 1000 None "a") = None.
Proof. repeat split; reflexivity. Qed.

(* ================================================================== *)
(** * Further properties of the loader *)

Lemma processRRwebEvent_outcome e :
  if unreadable e
  then exists x, processRRwebEvent e = Throw x
  else exists ev,
         processRRwebEvent e = Normal ev
         /\ timestamp ev = raw_timestamp e.
Proof.
  unfold unreadable, processRRwebEvent, data_of.
  destruct (raw_type e =? RRwebEventType_IncrementalSnapshot).
  - destruct (data e) as [d|]; cbn; [|eauto].
    repeat match goal with
           | |- context [if ?b then _ else _] => destruct b
           end; eauto.
  - destruct (raw_type e =? RRwebEventType_Meta).
    + destruct (data e) as [d|]; cbn; eauto.
    + cbn. eauto.
Qed.

Lemma mapM_processRRwebEvent_outcome l :
  if existsb unreadable l
  then exists x, mapM processRRwebEvent l = Throw x
  else exists evs,
         mapM processRRwebEvent l = Normal evs
         /\ Forall2 (fun raw ev => timestamp ev = raw_timestamp raw) l evs.
Proof.
  induction l as [|e l IH]; cbn [existsb mapM].
  - exists []. split; [reflexivity|constructor].
  - pose proof (processRRwebEvent_outcome e) as He.
    destruct (unreadable e); cbn [orb].
    + destruct He as [x ->]. cbn. eauto.
    + destruct He as (ev & -> & Hts). cbn [bind].
      destruct (existsb unreadable l).
      * destruct IH as [x ->]. cbn. eauto.
      * destruct IH as (evs & -> & Hall). cbn. eexists. split; eauto.
Qed.

Lemma existsb_Permutation {A} (f : A -> bool) l l' :
  Permutation l l' -> existsb f l = existsb f l'.
Proof.
  induction 1 as [|a l l' _ IH|a b l|l l' l'' _ IH1 _ IH2];
    cbn; try congruence.
  destruct (f a), (f b); reflexivity.
Qed.

(** The session a readable raw session loads to. *)
Lemma load_session_outcome env k session :
  let allEvents :=
    sort (fun a b => raw_timestamp a - raw_timestamp b)
      (raw_events session) in
  if existsb unreadable (raw_events session)
  then exists x, load_session env k session = Throw x
  else exists s k',
         load_session env k session = Normal (s, k')
         /\ Forall2 (fun raw ev => timestamp ev = raw_timestamp raw)
              allEvents (events s)
         /\ (truthy_str (raw_sessionId session) = true ->
             raw_sessionId session = Some (sessionId s))
         /\ startTime (metadata s)
            = match allEvents with e :: _ => raw_timestamp e | [] => 0 end
         /\ endTime (metadata s)
            = match allEvents with
              | _ :: _ => raw_timestamp (last allEvents (mkRRwebEvent 0 0 None))
              | [] => 0
              end
         /\ duration (metadata s)
            = endTime (metadata s) - startTime (metadata s).
Proof.
  intros allEvents. unfold load_session. fold (raw_events session).
  fold allEvents.
  rewrite <- (existsb_Permutation unreadable _ _
                (sort_perm (fun a b => raw_timestamp a - raw_timestamp b)
                   (raw_events session))).
  fold allEvents.
  pose proof (mapM_processRRwebEvent_outcome allEvents) as Hm.
  destruct (existsb unreadable allEvents).
  - destruct Hm as [x Hx].
    destruct (truthy_str (raw_sessionId session)); rewrite Hx; cbn; eauto.
  - destruct Hm as (evs & Hevs & Hall).
    destruct (truthy_str (raw_sessionId session)) eqn:Eid;
      rewrite Hevs; cbn [bind]; eexists; eexists;
      (split; [reflexivity|]); cbn;
      repeat split; try assumption; try discriminate.
    intros _. destruct (raw_sessionId session); [reflexivity|discriminate].
Qed.

Lemma load_sessions_outcome env sessions :
  forall k,
    if existsb (fun s => existsb unreadable (raw_events s)) sessions
    then exists x, load_sessions env k sessions = Throw x
    else exists loaded,
           load_sessions env k sessions = Normal loaded
           /\ Forall2 (fun raw s =>
                         exists k0 k1,
                           load_session env k0 raw = Normal (s, k1))
                sessions loaded.
Proof.
  induction sessions as [|session rest IH]; intros k;
    cbn [existsb load_sessions].
  - exists []. split; [reflexivity|constructor].
  - pose proof (load_session_outcome env k session) as Hs.
    cbv zeta in Hs.
    destruct (existsb unreadable (raw_events session)); cbn [orb].
    + destruct Hs as [x ->]. cbn. eauto.
    + destruct Hs as (s & k' & Hs & _). rewrite Hs. cbn [bind snd fst].
      specialize (IH k').
      destruct (existsb _ rest).
      * destruct IH as [x ->]. cbn. eauto.
      * destruct IH as (loaded & -> & Hall). cbn.
        eexists. split; [reflexivity|]. constructor; eauto.
Qed.

(** X1.  Loading is all or nothing: when some record of some session is
    an IncrementalSnapshot or Meta record without payload, the loader
    returns no session at all; otherwise it returns one session for every
    raw session, in order, with one event for every raw event and the
    session's own identifier when it has one. *)
Theorem loadRRwebData_all_or_nothing :
  forall env sessions,
    exists loaded,
      loadRRwebData env (FileContent (Sessions sessions)) = Normal loaded
      /\ if existsb (fun s => existsb unreadable (raw_events s)) sessions
         then loaded = []
         else Forall2
                (fun raw s =>
                   List.length (events s) = List.length (raw_events raw)
                   /\ (truthy_str (raw_sessionId raw) = true ->
                       raw_sessionId raw = Some (sessionId s)))
                sessions loaded.
Proof.
  intros env sessions. unfold loadRRwebData, loadRRwebData_try.
  pose proof (load_sessions_outcome env sessions 0%nat) as H.
  destruct (existsb _ sessions).
  - destruct H as [x ->]. eauto.
  - destruct H as (loaded & -> & Hall). exists loaded.
    split; [reflexivity|].
    eapply Forall2_impl; [|exact Hall].
    intros raw s (k0 & k1 & Hs).
    pose proof (load_session_outcome env k0 raw) as Ho. cbv zeta in Ho.
    destruct (existsb unreadable (raw_events raw)).
    + destruct Ho as [x Hx]. congruence.
    + destruct Ho as (s' & k' & Hs' & Hev & Hid & _).
      rewrite Hs in Hs'. inversion Hs'; subst s' k'.
      split; [|exact Hid].
      rewrite <- (Forall2_length Hev).
      apply Permutation_length, sort_perm.
Qed.

Lemma StronglySorted_Forall2 {A B} (R : A -> A -> Prop) (R' : B -> B -> Prop)
    (P : A -> B -> Prop) l l' :
  (forall a b a' b', P a a' -> P b b' -> R a b -> R' a' b') ->
  Forall2 P l l' -> StronglySorted R l -> StronglySorted R' l'.
Proof.
  intros HP Hall. induction Hall as [|a a' l l' Ha Hall IH];
    intros Hs; [constructor|].
  inversion Hs as [|? ? Hs' Hfa]; subst. constructor; [auto|].
  clear IH Hs Hs'. induction Hall as [|b b' l l' Hb Hall IH];
    [constructor|].
  inversion Hfa; subst. constructor; eauto.
Qed.

Lemma StronglySorted_bounds {A} (key : A -> Z) d x l :
  StronglySorted (fun a b => key a <= key b) (x :: l) ->
  Forall (fun e => key x <= key e <= key (last (x :: l) d)) (x :: l).
Proof.
  revert x. induction l as [|y l IH]; intros x Hs.
  - constructor; [cbn; lia|constructor].
  - inversion Hs as [|? ? Hs' Hfa]; subst.
    specialize (IH y Hs').
    change (last (x :: y :: l) d) with (last (y :: l) d).
    assert (Hxy : key x <= key y) by (inversion Hfa; assumption).
    constructor.
    + split; [lia|]. inversion IH; subst. lia.
    + eapply Forall_impl; [|exact IH]. cbv beta. intros; lia.
Qed.

Lemma Forall2_last {A B} (P : A -> B -> Prop) l l' d d' :
  Forall2 P l l' -> l <> [] -> P (last l d) (last l' d').
Proof.
  induction 1 as [|a b l l' Hab Hall IH]; intros Hne; [contradiction|].
  destruct Hall as [|a2 b2 l l' H2 Hall]; [exact Hab|].
  change (P (last (a2 :: l) d) (last (b2 :: l') d')).
  apply IH. discriminate.
Qed.

Lemma load_session_in_order env k session s k' :
  load_session env k session = Normal (s, k') -> session_in_order s.
Proof.
  intros Hs.
  pose proof (load_session_outcome env k session) as Ho. cbv zeta in Ho.
  destruct (existsb unreadable (raw_events session)).
  { destruct Ho as [x Hx]. congruence. }
  destruct Ho as (s' & k'' & Hs' & Hev & _ & Hst & Hen & Hdur).
  rewrite Hs in Hs'. inversion Hs'; subst s' k''. clear Hs'.
  set (allEvents := sort _ _) in *.
  assert (Hsorted : StronglySorted
                      (fun a b => raw_timestamp a <= raw_timestamp b)
                      allEvents).
  { apply sort_sorted. reflexivity. }
  assert (Hsorted' : StronglySorted
                       (fun a b => timestamp a <= timestamp b) (events s)).
  { eapply StronglySorted_Forall2; [|exact Hev|exact Hsorted].
    cbv beta. intros a b a' b' Ha Hb Hab. lia. }
  unfold session_in_order. rewrite Hdur, Hst, Hen.
  destruct Hev as [|raw e raws evs Hre Hall].
  - repeat split; try constructor; lia.
  - assert (Hlast : timestamp (last (e :: evs) e)
                    = raw_timestamp
                        (last (raw :: raws) (mkRRwebEvent 0 0 None))).
    { apply (Forall2_last (fun raw ev => timestamp ev = raw_timestamp raw));
        [constructor; assumption|discriminate]. }
    rewrite <- Hlast, <- Hre.
    pose proof (StronglySorted_bounds timestamp e e evs Hsorted') as Hb.
    repeat split; try assumption; try reflexivity.
    inversion Hb; subst. lia.
Qed.

(** X2.  Every session the loader returns has its events in ascending
    order of timestamp, whatever the order of the raw records, and its
    metadata agrees with them: [startTime] is the first timestamp, every
    timestamp lies between [startTime] and [endTime], [duration] is their
    difference and is not negative, and both are 0 for a session without
    events. *)
Theorem loaded_sessions_in_order :
  forall env file loaded,
    loadRRwebData env file = Normal loaded ->
    Forall session_in_order loaded.
Proof.
  intros env file loaded. unfold loadRRwebData, loadRRwebData_try.
  destruct file as [| |[| |sessions]];
    try (intros H; inversion H; constructor).
  pose proof (load_sessions_outcome env sessions 0%nat) as Ho.
  destruct (existsb _ sessions).
  - destruct Ho as [x ->]. intros H; inversion H; constructor.
  - destruct Ho as (l & -> & Hall). intros H; inversion H; subst.
    clear H. induction Hall as [|raw s raws ss (k0 & k1 & Hs) _ IH];
      constructor; [|exact IH].
    eapply load_session_in_order; eauto.
Qed.

Lemma loaded_sessions_in_order_witness :
  (exists loaded,
     loadRRwebData env_a unordered_file = Normal loaded
     /\ map (fun s => map timestamp (events s)) loaded = [[10; 20; 30]]
     /\ Forall session_in_order loaded).
Proof.
  eexists. split; [reflexivity|]. split; [reflexivity|].
  apply (loaded_sessions_in_order env_a unordered_file). reflexivity.
Defined.

(* ================================================================== *)
(** * Further properties of the pattern scan *)

(** The moments of one pattern of an iteration come from its block. *)
Ltac of_type_blocks name :=
  rewrite pass2_step_out, !of_type_app; unfold form_out;
  try rewrite (of_type_none name _ _ (click_block_emits _ _ _ _ _))
    by (simpl; intuition discriminate);
  try rewrite (of_type_none name _ _ (navigate_block_emits _ _ _ _ _ _))
    by (simpl; intuition discriminate);
  try rewrite (of_type_none name _ _ (scroll_block_emits _ _ _ _ _))
    by (simpl; intuition discriminate);
  try rewrite (of_type_none name _ _ (hover_block_emits _ _ _ _ _))
    by (simpl; intuition discriminate);
  try rewrite (of_type_none name _ _ (hesitation_block_emits _ _ _))
    by (simpl; intuition discriminate);
  try rewrite (of_type_none name _ _ (submission_block_emits _ _ _))
    by (simpl; intuition discriminate);
  try rewrite (of_type_none name _ _ (viewport_block_emits _ _))
    by (simpl; intuition discriminate);
  try rewrite (of_type_all name _ (scroll_block_emits _ _ _ _ _));
  try rewrite (of_type_all name _ (submission_block_emits _ _ _));
  try rewrite (of_type_all name _ (viewport_block_emits _ _));
  rewrite ?app_nil_r; cbn [app].

Lemma of_type_RapidScrolling_step c st i e :
  of_type "RapidScrolling" (snd (pass2_step c st (i, e)))
  = snd (scroll_block c i e (scrollEvents st) (lastScrollTime st)).
Proof. of_type_blocks "RapidScrolling". reflexivity. Qed.

Lemma of_type_MultipleSubmissions_step c st i e :
  of_type "MultipleSubmissions" (snd (pass2_step c st (i, e)))
  = submission_block c i e.
Proof. of_type_blocks "MultipleSubmissions". reflexivity. Qed.

Lemma of_type_HorizontalScrollMobile_step c st i e :
  of_type "HorizontalScrollMobile" (snd (pass2_step c st (i, e)))
  = viewport_block c e.
Proof. of_type_blocks "HorizontalScrollMobile". reflexivity. Qed.

Lemma of_type_DeadClick_step c st i e :
  of_type "DeadClick" (snd (pass2_step c st (i, e)))
  = if is_click_or_mousedown e && is_dead_click_target e
    then [dead_click_moment c i e] else [].
Proof.
  of_type_blocks "DeadClick". unfold click_block, dead_click_moment.
  destruct (is_click_or_mousedown e); [|reflexivity]. cbn [andb].
  repeat match goal with
         | |- context [if ?b then _ else _] =>
             lazymatch b with
             | is_dead_click_target _ => fail
             | _ => destruct b
             end
         end;
    cbn [snd app]; destruct (is_dead_click_target e); reflexivity.
Qed.

Lemma pass2_step_scrolls c st i e :
  scrollEvents (fst (pass2_step c st (i, e)))
  = fst (fst (scroll_block c i e (scrollEvents st) (lastScrollTime st))).
Proof.
  unfold pass2_step.
  destruct (click_block c i e _ _) as [[? ?] ?].
  destruct (input_block e _ _ _ _) as [[[? ?] ?] ?].
  destruct (navigate_block c i e _ _ _) as [[? ?] ?].
  destruct (scroll_block c i e _ _) as [[? ?] ?].
  destruct (hover_block c i e _ _) as [[? ?] ?].
  reflexivity.
Qed.

(** A property of the moments of one pattern, from the iterations to
    the session. *)
Lemma Forall_of_type (Q : Moment -> Prop) name out :
  (forall m, moment_type m <> name -> Q m) ->
  Forall Q (of_type name out) -> Forall Q out.
Proof.
  intros Hother. induction out as [|m out IH]; intros H; [constructor|].
  unfold of_type in H. cbn [filter] in H. unfold is_type at 1 in H.
  destruct (String.eqb_spec (moment_type m) name) as [E|E].
  - inversion H; subst. constructor; auto.
  - constructor; auto.
Qed.

Lemma extractSession_Forall (Q : Moment -> Prop) name :
  In name pass2_types -> name <> "FormAbandonment" ->
  (forall m, moment_type m <> name -> Q m) ->
  (forall c st ie, Forall Q (of_type name (snd (pass2_step c st ie)))) ->
  forall session, Forall Q (extractSession session).
Proof.
  intros Hin Hnf Hother Hstep session.
  apply (Forall_of_type Q name); [exact Hother|].
  rewrite (of_type_extractSession name session Hin Hnf).
  unfold second_pass.
  generalize (indexed (events session)) as l. generalize pass2_init as st.
  intros st l. revert st.
  induction l as [|ie l IH]; intros st; [constructor|].
  rewrite scan_cons. cbn [snd]. rewrite of_type_app.
  apply Forall_app; split; [apply Hstep|apply IH].
Qed.

(** ** Dead clicks *)

Lemma of_type_DeadClick_scan c l :
  forall st,
    of_type "DeadClick" (snd (scan (pass2_step c) st l))
    = flat_map (fun ie =>
                  if is_click_or_mousedown (snd ie)
                     && is_dead_click_target (snd ie)
                  then [dead_click_moment c (fst ie) (snd ie)] else [])
        l.
Proof.
  induction l as [|[i e] l IH]; intros st; [reflexivity|].
  rewrite scan_cons. cbn [snd fst flat_map].
  rewrite of_type_app, IH, of_type_DeadClick_step. reflexivity.
Qed.

Lemma set_has_In s k : set_has s k = true <-> In k s.
Proof.
  unfold set_has. rewrite existsb_exists. split.
  - intros (k' & Hin & E). apply String.eqb_eq in E. subst. exact Hin.
  - intros Hin. exists k. split; [exact Hin|apply String.eqb_refl].
Qed.

(** X4.  The DeadClick moments of a session are those of its click and
    mouse-down events, one for each, in order, whose element has a tag
    outside BUTTON, A, INPUT, SELECT, TEXTAREA, LABEL, no class name that
    contains [btn] or [button], no [role=button] and no [onclick]
    attribute; an event without element, or a click on any of the six
    tags, gives none. *)
Theorem DeadClick_exactly_on_inert_elements :
  forall session,
    of_type "DeadClick" (extractSession session)
    = flat_map (fun ie =>
                  if is_click_or_mousedown (snd ie)
                     && is_dead_click_target (snd ie)
                  then [dead_click_moment (session_ctx session)
                          (fst ie) (snd ie)]
                  else [])
        (indexed (events session))
    /\ forall e,
         is_dead_click_target e = true <->
         exists el,
           element e = Some el
           /\ ~ In (tag el) ["BUTTON"; "A"; "INPUT"; "SELECT"; "TEXTAREA";
                             "LABEL"]
           /\ class_includes el "btn" = false
           /\ class_includes el "button" = false
           /\ attr_is el "role" "button" = false
           /\ attr_truthy el "onclick" = false.
Proof.
  intros session. split.
  - rewrite of_type_extractSession
      by (simpl; intuition discriminate || auto 10).
    unfold second_pass. apply of_type_DeadClick_scan.
  - intros e. unfold is_dead_click_target.
    destruct (element e) as [el|].
    + rewrite !andb_true_iff, !negb_true_iff.
      split.
      * intros ((((H1 & H2) & H3) & H4) & H5). exists el.
        repeat split; try assumption.
        intros Hin. apply (set_has_In interactiveElements) in Hin.
        congruence.
      * intros (el' & Hel & H1 & H2 & H3 & H4 & H5).
        inversion Hel; subst el'.
        repeat split; try assumption.
        destruct (set_has interactiveElements (tag el)) eqn:Es;
          [|reflexivity].
        exfalso. apply H1. apply (set_has_In interactiveElements), Es.
    + split; [discriminate|]. intros (el & Hel & _). discriminate.
Qed.

(** ** Rapid scrolling *)

Lemma scroll_block_ok c i e scrolls lastScroll :
  Forall rapid_scrolling_ok (snd (scroll_block c i e scrolls lastScroll)).
Proof.
  unfold scroll_block.
  destruct (is_incremental "Scroll" e); [|constructor].
  set (recent := filter _ (scrolls ++ [e])).
  destruct (RAPID_SCROLL_THRESHOLD <=? List.length recent)%nat eqn:En;
    [|constructor].
  cbn [snd]. constructor; [|constructor].
  cbn [rapid_scrolling_ok]. apply Nat.leb_le in En.
  unfold RAPID_SCROLL_THRESHOLD in En. split; [exact En|].
  destruct recent as [|r0 rest] eqn:Er; [cbn in En; lia|].
  cbn [hd].
  assert (Hin : In r0 (filter
                         (fun e0 => timestamp e0
                                    >? timestamp e - SCROLL_DETECTION_WINDOW)
                         (scrolls ++ [e]))).
  { fold recent. rewrite Er. left. reflexivity. }
  apply filter_In in Hin as [_ Hgt].
  apply Z.gtb_lt in Hgt. unfold SCROLL_DETECTION_WINDOW in Hgt. lia.
Qed.

Lemma length_slice_last {A} n (l : list A) :
  List.length (slice_last n l) = Nat.min n (List.length l).
Proof. unfold slice_last. rewrite length_skipn. lia. Qed.

Lemma scroll_block_budget c i e scrolls lastScroll :
  (6 * List.length (snd (scroll_block c i e scrolls lastScroll))
   + List.length (fst (fst (scroll_block c i e scrolls lastScroll)))
   <= List.length scrolls
      + (if is_incremental "Scroll" e then 1 else 0))%nat.
Proof.
  unfold scroll_block.
  destruct (is_incremental "Scroll" e); [|cbn; lia].
  set (recent := filter _ (scrolls ++ [e])).
  pose proof (filter_length_le
                (fun e0 => timestamp e0
                           >? timestamp e - SCROLL_DETECTION_WINDOW)
                (scrolls ++ [e])) as Hle.
  fold recent in Hle. rewrite length_app in Hle. cbn [List.length] in Hle.
  destruct (RAPID_SCROLL_THRESHOLD <=? List.length recent)%nat eqn:En.
  - apply Nat.leb_le in En. unfold RAPID_SCROLL_THRESHOLD in En.
    cbn [fst snd List.length]. rewrite length_slice_last, length_app.
    cbn [List.length]. lia.
  - cbn [fst snd List.length]. rewrite length_app. cbn [List.length]. lia.
Qed.

Lemma scroll_scan_budget c l :
  forall st,
    (6 * List.length
           (of_type "RapidScrolling" (snd (scan (pass2_step c) st l)))
     + List.length (scrollEvents (fst (scan (pass2_step c) st l)))
     <= List.length (scrollEvents st)
        + List.length (filter (is_incremental "Scroll") (map snd l)))%nat.
Proof.
  induction l as [|[i e] l IH]; intros st; [cbn; lia|].
  rewrite scan_cons. cbn [fst snd map filter].
  rewrite of_type_app, length_app, of_type_RapidScrolling_step.
  specialize (IH (fst (pass2_step c st (i, e)))).
  rewrite pass2_step_scrolls in IH.
  pose proof (scroll_block_budget c i e (scrollEvents st)
                (lastScrollTime st)) as Hb.
  destruct (is_incremental "Scroll" e); cbn [List.length]; lia.
Qed.

Lemma map_snd_indexed {A} (l : list A) : map snd (indexed l) = l.
Proof.
  unfold indexed. generalize 0%nat.
  induction l as [|a l IH]; intros n; [reflexivity|].
  cbn. f_equal. apply IH.
Qed.

(** X5.  Every RapidScrolling moment counts at least 8 scroll events that
    span less than 5 s, and since a report leaves only the last two
    scroll events in the window, a session with [n] Scroll events holds
    at most [n / 6] RapidScrolling moments. *)
Theorem RapidScrolling_counts_and_rate :
  forall session,
    Forall rapid_scrolling_ok (extractSession session)
    /\ (6 * List.length (of_type "RapidScrolling" (extractSession session))
        <= List.length
             (filter (is_incremental "Scroll") (events session)))%nat.
Proof.
  intros session. split.
  - apply (extractSession_Forall rapid_scrolling_ok "RapidScrolling").
    + simpl; auto 10.
    + discriminate.
    + intros m Hm. destruct m; try exact I. contradiction Hm. reflexivity.
    + intros c st [i e]. rewrite of_type_RapidScrolling_step.
      apply scroll_block_ok.
  - rewrite of_type_extractSession
      by (simpl; intuition discriminate || auto 10).
    unfold second_pass.
    pose proof (scroll_scan_budget (session_ctx session)
                  (indexed (events session)) pass2_init) as H.
    rewrite map_snd_indexed in H. cbn [scrollEvents pass2_init] in H.
    cbn [List.length] in H. lia.
Qed.

(** ** Multiple submissions *)

Lemma length_slice_le {A} a b (l : list A) :
  (List.length (slice a b l) <= b - a)%nat.
Proof. unfold slice. rewrite length_firstn. lia. Qed.

Lemma submission_block_ok c i e :
  Forall multiple_submissions_ok (submission_block c i e).
Proof.
  unfold submission_block.
  destruct (is_click e && submit_like e); [|constructor].
  set (recent := filter _ _).
  destruct (2 <=? List.length recent)%nat eqn:En; [|constructor].
  constructor; [|constructor]. cbn [multiple_submissions_ok].
  apply Nat.leb_le in En.
  pose proof (filter_length_le
                (fun e0 => is_incremental "MouseInteraction" e0
                           && (timestamp e0
                               >? timestamp e - SUBMISSION_WINDOW)
                           && submit_like e0)
                (slice (i - 20) i (c_events c))) as Hle.
  fold recent in Hle.
  pose proof (length_slice_le (i - 20) i (c_events c)). lia.
Qed.

(** X6.  Every MultipleSubmissions moment carries a count between 3 and
    21: the click that triggers it and at least 2, at most 20 earlier
    submit-like mouse interactions. *)
Theorem MultipleSubmissions_count_bounds :
  forall session, Forall multiple_submissions_ok (extractSession session).
Proof.
  apply (extractSession_Forall multiple_submissions_ok
           "MultipleSubmissions").
  - simpl; auto 10.
  - discriminate.
  - intros m Hm. destruct m; try exact I. contradiction Hm. reflexivity.
  - intros c st [i e]. rewrite of_type_MultipleSubmissions_step.
    apply submission_block_ok.
Qed.

(** ** What a loaded session can report *)

Lemma processRRwebEvent_keeps_no_payload r e :
  processRRwebEvent r = Normal e -> keeps_no_payload e.
Proof.
  intros H Ht. rewrite (processRRwebEvent_type _ _ H) in Ht.
  apply eventTypeMap_IncrementalSnapshot in Ht.
  unfold processRRwebEvent, data_of in H. rewrite Ht, Z.eqb_refl in H.
  destruct (data r) as [d|]; cbn in H; [|discriminate].
  repeat match type of H with
         | context [if ?b then _ else _] => destruct b
         end; inversion H; split; reflexivity.
Qed.

Lemma in_skipn {A} n (l : list A) a : In a (skipn n l) -> In a l.
Proof.
  intros H. rewrite <- (firstn_skipn n l). apply in_or_app. right. exact H.
Qed.

Lemma in_firstn {A} n (l : list A) a : In a (firstn n l) -> In a l.
Proof.
  intros H. rewrite <- (firstn_skipn n l). apply in_or_app. left. exact H.
Qed.

Lemma hovering_at_no_payload evs i e :
  Forall keeps_no_payload evs -> hovering_at evs i e = false.
Proof.
  intros Hall. unfold hovering_at, hover_positions.
  set (moves := moves_of (firstn (S i) evs)).
  destruct (3 <=? List.length moves)%nat eqn:En;
    [|rewrite andb_false_r; reflexivity].
  apply Nat.leb_le in En.
  destruct (slice_last 3 moves) as [|m rest] eqn:El.
  { pose proof (length_slice_last 3 moves) as Hl. rewrite El in Hl.
    cbn [List.length] in Hl. lia. }
  assert (Hm : In m moves).
  { apply (in_skipn (List.length moves - 3)).
    fold (slice_last 3 moves). rewrite El. left. reflexivity. }
  apply filter_In in Hm as [Hin Hmm]. apply in_firstn in Hin.
  rewrite Forall_forall in Hall. specialize (Hall m Hin).
  unfold is_incremental in Hmm. apply andb_true_iff in Hmm as [Ht _].
  apply String.eqb_eq in Ht. destruct (Hall Ht) as [Hpos _].
  cbn [map forallb]. unfold first_position at 1. rewrite Hpos.
  cbn [position_valid pos_x pos_y Z.eqb negb orb andb].
  rewrite andb_false_r. reflexivity.
Qed.

Lemma viewport_block_no_payload c e :
  keeps_no_payload e -> viewport_block c e = [].
Proof.
  intros He. unfold viewport_block.
  destruct (is_incremental "Scroll" e) eqn:Es;
    [|rewrite andb_false_r; reflexivity].
  unfold is_incremental in Es. apply andb_true_iff in Es as [Ht _].
  apply String.eqb_eq in Ht. destruct (He Ht) as [_ Hx].
  rewrite Hx, andb_false_r. reflexivity.
Qed.

Lemma of_type_HorizontalScrollMobile_scan c l :
  forall st,
    of_type "HorizontalScrollMobile" (snd (scan (pass2_step c) st l))
    = flat_map (fun ie => viewport_block c (snd ie)) l.
Proof.
  induction l as [|[i e] l IH]; intros st; [reflexivity|].
  rewrite scan_cons. cbn [snd fst flat_map].
  rewrite of_type_app, IH, of_type_HorizontalScrollMobile_step.
  reflexivity.
Qed.

Lemma flat_map_nil {A B} (f : A -> list B) l :
  (forall a, In a l -> f a = []) -> flat_map f l = [].
Proof.
  induction l as [|a l IH]; intros H; [reflexivity|].
  cbn. rewrite (H a) by (left; reflexivity).
  apply IH. intros b Hb. apply H. right. exact Hb.
Qed.

Lemma in_indexed {A} (l : list A) i a : In (i, a) (indexed l) -> In a l.
Proof. unfold indexed. apply in_combine_r. Qed.

Lemma second_pass_hovering session :
  of_type "MouseHovering" (snd (second_pass session))
  = flat_map (fun ie =>
                if hovering_at (events session) (fst ie) (snd ie)
                then [hovering_moment (session_ctx session)
                        (fst ie) (snd ie)]
                else [])
      (indexed (events session)).
Proof.
  unfold second_pass, indexed.
  apply (of_type_MouseHovering_scan (session_ctx session)
           (events session) [] pass2_init); reflexivity.
Qed.

Lemma no_payload_session session :
  Forall keeps_no_payload (events session) ->
  of_type "MouseHovering" (extractSession session) = []
  /\ of_type "HorizontalScrollMobile" (extractSession session) = [].
Proof.
  intros Hall. split.
  - rewrite of_type_extractSession
      by (simpl; intuition discriminate || auto 10).
    rewrite second_pass_hovering.
    apply flat_map_nil. intros [i e] _. cbn [fst snd].
    rewrite (hovering_at_no_payload _ _ _ Hall). reflexivity.
  - rewrite of_type_extractSession
      by (simpl; intuition discriminate || auto 10).
    unfold second_pass. rewrite of_type_HorizontalScrollMobile_scan.
    apply flat_map_nil. intros [i e] Hin. cbn [snd].
    apply viewport_block_no_payload.
    rewrite Forall_forall in Hall. apply Hall.
    apply (in_indexed _ i), Hin.
Qed.

(** X3.  No session that comes out of the loader reports a MouseHovering
    or a HorizontalScrollMobile moment: the processor keeps neither the
    positions of a MouseMove record nor the offsets of a Scroll record,
    so the hover test sees [(0,0)] samples only and the scroll test no
    [x]. *)
Theorem hovering_and_horizontal_scroll_unreachable_after_loading :
  forall env file loaded,
    loadRRwebData env file = Normal loaded ->
    of_type "MouseHovering" (extractKeyMoments loaded) = []
    /\ of_type "HorizontalScrollMobile" (extractKeyMoments loaded) = [].
Proof.
  intros env file loaded H. apply loadRRwebData_events in H.
  unfold extractKeyMoments.
  induction H as [|s l [raws Hs] _ [IH1 IH2]]; [split; reflexivity|].
  cbn [flat_map]. rewrite !of_type_app, IH1, IH2, !app_nil_r.
  apply no_payload_session.
  eapply mapM_processed_Forall; [|exact Hs].
  apply processRRwebEvent_keeps_no_payload.
Qed.

Lemma hovering_and_horizontal_scroll_unreachable_after_loading_witness :
  exists loaded,
    loadRRwebData env_a hover_file = Normal loaded
    /\ map (fun s => List.length (events s)) loaded = [5%nat]
    /\ of_type "MouseHovering" (extractKeyMoments loaded) = []
    /\ of_type "HorizontalScrollMobile" (extractKeyMoments loaded) = [].
Proof.
  eexists. split; [reflexivity|]. split; [reflexivity|].
  apply (hovering_and_horizontal_scroll_unreachable_after_loading
           env_a hover_file).
  reflexivity.
Defined.

(** ** The context window *)

Lemma simplify_details_positions d :
  match positions (simplify_details d) with
  | Some ps => (List.length ps <= 3)%nat
  | None => True
  end.
Proof.
  unfold simplify_details.
  destruct (positions d) as [ps|] eqn:Ep; [|rewrite Ep; exact I].
  destruct (3 <? List.length ps)%nat eqn:El.
  - cbn [positions]. rewrite length_firstn. lia.
  - rewrite Ep. apply Nat.ltb_ge in El. exact El.
Qed.

(** X7.  The context of the event at [currentIndex] holds at most
    [2 * windowSize + 1] events, each without [url] and with at most
    three sampled positions; it holds the event itself, simplified, at
    offset [min currentIndex windowSize], and it is empty when the index
    is out of range. *)
Theorem getContextAroundEvent_window :
  forall events currentIndex windowSize,
    let context := getContextAroundEvent events currentIndex windowSize in
    (List.length context <= 2 * windowSize + 1)%nat
    /\ Forall context_event context
    /\ match nth_error events currentIndex with
       | Some e =>
           nth_error context (Nat.min currentIndex windowSize)
           = Some (simplify_event e)
       | None => context = []
       end.
Proof.
  intros evs i w context. subst context. unfold getContextAroundEvent.
  destruct (List.length evs =? 0)%nat eqn:E0.
  { apply Nat.eqb_eq in E0. apply length_zero_iff_nil in E0. subst evs.
    repeat split; [cbn; lia|constructor|].
    destruct i; reflexivity. }
  destruct (List.length evs <=? i)%nat eqn:Ei.
  { apply Nat.leb_le in Ei.
    repeat split; [cbn; lia|constructor|].
    rewrite (proj2 (nth_error_None evs i) Ei). reflexivity. }
  apply Nat.leb_gt in Ei. apply Nat.eqb_neq in E0.
  fold simplify_event.
  change (fun e => mkEvent (timestamp e) (type e)
                     (simplify_details (details e)) None (element e))
    with simplify_event.
  split; [|split].
  - rewrite length_map. pose proof (length_slice_le (i - w)
      (Nat.min (List.length evs - 1) (i + w) + 1) evs). lia.
  - apply Forall_map. apply Forall_forall. intros e _.
    split; [reflexivity|]. apply simplify_details_positions.
  - destruct (nth_error evs i) as [e|] eqn:Ee.
    2:{ apply nth_error_None in Ee. lia. }
    unfold slice. rewrite nth_error_map, nth_error_firstn, nth_error_skipn.
    replace (i - w + Nat.min i w)%nat with i by lia.
    destruct (Nat.ltb_spec (Nat.min i w)
                (Nat.min (List.length evs - 1) (i + w) + 1 - (i - w)))
      as [Hlt|Hge]; [|lia].
    rewrite Ee. reflexivity.
Qed.

(** ** Session identifier and URL of a moment *)

Ltac tagged_block :=
  repeat match goal with
         | |- context [if ?b then _ else _] => destruct b
         | |- context [match ?x with _ => _ end] => destruct x
         end;
  cbn [snd fst app];
  repeat (apply Forall_cons || apply Forall_nil || split);
  reflexivity.

Lemma Forall_app_intro {A} (P : A -> Prop) l1 l2 :
  Forall P l1 -> Forall P l2 -> Forall P (l1 ++ l2).
Proof. intros; apply Forall_app; split; assumption. Qed.

Lemma pass2_step_tagged c st ie :
  Forall (fun m => moment_sid m = c_sid c /\ moment_url m = Some (c_url c))
    (snd (pass2_step c st ie)).
Proof.
  destruct ie as [i e]. rewrite pass2_step_out. unfold form_out.
  apply Forall_app_intro; [|apply Forall_app_intro;
    [|apply Forall_app_intro; [|apply Forall_app_intro;
      [|apply Forall_app_intro; [|apply Forall_app_intro]]]]].
  - unfold click_block. tagged_block.
  - unfold navigate_block. tagged_block.
  - unfold scroll_block. tagged_block.
  - unfold hover_block. tagged_block.
  - unfold hesitation_block. tagged_block.
  - unfold submission_block. tagged_block.
  - unfold viewport_block. tagged_block.
Qed.

Lemma pass1_step_tagged sid st e :
  Forall (fun m => moment_sid m = sid /\ first_pass_type m = true)
    (snd (pass1_step sid st e)).
Proof. unfold pass1_step. tagged_block. Qed.

Lemma pass1_currentUrl sid l :
  forall st,
    currentUrl (fst (scan (pass1_step sid) st l))
    = last_navigated l (currentUrl st).
Proof.
  induction l as [|e l IH]; intros st; [reflexivity|].
  rewrite scan_cons. cbn [fst]. rewrite IH.
  unfold last_navigated. cbn [fold_left]. f_equal.
  unfold pass1_step.
  destruct (href (details e)) as [h|]; cbn [truthy_str];
    [|rewrite andb_false_r];
    repeat match goal with
           | |- context [if ?b then _ else _] => destruct b
           end; reflexivity.
Qed.

(** X8.  Every moment of a session carries that session's identifier.
    Every moment other than the NavigationLoop and JSError moments of the
    first loop and the SessionMetrics moment carries one and the same
    URL, the page the session ends on: the [href] of its last Navigate
    event that has one, else the URL of the metadata, whatever page the
    event behind the moment happened on. *)
Theorem moments_carry_session_and_final_url :
  forall session,
    Forall (fun m =>
              moment_sid m = sessionId session
              /\ (first_pass_type m = false ->
                  moment_type m <> "SessionMetrics" ->
                  moment_url m
                  = Some (last_navigated (events session)
                            (meta_url (metadata session)))))
      (extractSession session).
Proof.
  intros session.
  destruct (events session) as [|e0 rest] eqn:Ev.
  { unfold extractSession. rewrite Ev. constructor. }
  rewrite extractSession_nonempty by (rewrite Ev; discriminate).
  assert (Hurl : c_url (session_ctx session)
                 = last_navigated (e0 :: rest)
                     (meta_url (metadata session))).
  { unfold session_ctx, first_pass. cbn [c_url].
    rewrite pass1_currentUrl, Ev. reflexivity. }
  apply Forall_app_intro; [|apply Forall_app_intro;
    [|apply Forall_app_intro; [|apply Forall_app_intro]]].
  - eapply Forall_impl;
      [|apply (scan_Forall _ _ (pass1_step_tagged (sessionId session)))].
    intros m [Hs Hf]. split; [exact Hs|]. congruence.
  - eapply Forall_impl;
      [|apply (scan_Forall _ _
                 (pass2_step_tagged (session_ctx session)))].
    intros m [Hs Hu]. rewrite Hurl in Hu. split; [exact Hs|auto].
  - unfold end_of_session_form.
    destruct (truthy_str _ && _); constructor; [|constructor].
    rewrite <- Hurl. split; [reflexivity|auto].
  - unfold short_session.
    destruct ((_ <? _) && _); constructor; [|constructor].
    rewrite <- Hurl. split; [reflexivity|auto].
  - constructor; [|constructor]. split; [reflexivity|].
    intros _ Hm. contradiction Hm. reflexivity.
Qed.

(* ================================================================== *)
(** * Further properties of the temporal join *)

Lemma descending_spec f fuel :
  forall d,
    descending fuel d (f (d - 1)) f = true ->
    forall x, d <= x < d + Z.of_nat fuel -> f x <= f (x - 1).
Proof.
  induction fuel as [|k IH]; intros d H x Hx; [lia|].
  cbn [descending] in H. apply andb_true_iff in H as [H0 Hrest].
  apply Z.leb_le in H0.
  destruct (Z.eq_dec x d) as [->|Hne]; [exact H0|].
  apply (IH (d + 1)); [|lia].
  replace (d + 1 - 1) with d by lia. exact Hrest.
Qed.

Lemma score_descending_below_window :
  descending (Z.to_nat (NEARBY_EVENT_WINDOW_MS - 1)) 1 (score_of 0) score_of
  = true.
(* exhaustive *)
Proof. vm_compute. reflexivity. Qed.

Lemma score_of_monotone a b :
  0 <= a <= b -> b < NEARBY_EVENT_WINDOW_MS -> score_of b <= score_of a.
Proof.
  intros Hab Hb.
  assert (Hstep : forall x, 1 <= x < NEARBY_EVENT_WINDOW_MS ->
                            score_of x <= score_of (x - 1)).
  { intros x Hx.
    apply (descending_spec score_of _ 1 score_descending_below_window).
    unfold NEARBY_EVENT_WINDOW_MS in *. lia. }
  remember (Z.to_nat (b - a)) as n eqn:Hn.
  revert b Hab Hb Hn. induction n as [|n IH]; intros b Hab Hb Hn.
  - replace b with a by lia. lia.
  - specialize (IH (b - 1) ltac:(lia) ltac:(lia) ltac:(lia)).
    specialize (Hstep b ltac:(lia)). lia.
Qed.

Lemma score_event_score t e d :
  time_distance t e = Some d -> 0 <= d < NEARBY_EVENT_WINDOW_MS ->
  relevanceScore (score_event t e) = Some (score_of d).
Proof.
  intros Hd Hlt. unfold score_event, score_of. cbn [relevanceScore].
  rewrite Hd, toFixed2_shift_eq.
  destruct (relevance_rounds d Hlt) as [s [-> _]]. reflexivity.
Qed.

Lemma nearby_sorted t normalized :
  StronglySorted
    (fun a b =>
       exists da db,
         time_distance t a = Some da /\ time_distance t b = Some db
         /\ 0 <= da <= db /\ db < NEARBY_EVENT_WINDOW_MS)
    (sort (by_proximity t) (filter (is_nearby t) normalized)).
Proof.
  apply (StronglySorted_weaken
           (fun a b => num_or0 (time_distance t a)
                       <= num_or0 (time_distance t b))).
  - intros a b Ha Hb Hab.
    apply (Permutation_in _ (sort_perm _ _)) in Ha, Hb.
    apply filter_In in Ha as [_ Ha]. apply filter_In in Hb as [_ Hb].
    apply is_nearby_spec in Ha as [da [Ha Hda]].
    apply is_nearby_spec in Hb as [db [Hb Hdb]].
    rewrite Ha, Hb in Hab. cbn [num_or0] in Hab.
    exists da, db. repeat split; try assumption; lia.
  - apply sort_sorted. intros a b Ha Hb.
    apply filter_In in Ha as [_ Ha]. apply filter_In in Hb as [_ Hb].
    apply is_nearby_spec in Ha as [da [Ha _]].
    apply is_nearby_spec in Hb as [db [Hb _]].
    unfold by_proximity. rewrite Ha, Hb. reflexivity.
Qed.

Lemma Forall2_map_r {A B} (f : A -> B) l :
  Forall2 (fun a b => b = f a) l (map f l).
Proof. induction l; constructor; auto. Qed.

(** X9.  The events attached to a moment come in descending order of
    relevance score: of two attached events the one listed first never
    has the lower score, and an event at distance 0 has score 1.00. *)
Theorem nearbyPosthogEvents_by_descending_score :
  forall normalized moment,
    StronglySorted scored_no_lower
      (nearbyPosthogEvents (sync_moment normalized moment))
    /\ Forall (fun r =>
                 time_distance (moment_timestamp moment) (r_event r)
                 = Some 0 ->
                 relevanceScore r = Some 100)
         (nearbyPosthogEvents (sync_moment normalized moment)).
Proof.
  intros normalized moment. unfold sync_moment.
  set (t := moment_timestamp moment). cbn [nearbyPosthogEvents].
  split.
  - eapply StronglySorted_Forall2;
      [|apply Forall2_map_r|apply (nearby_sorted t normalized)].
    cbv beta. intros a b ra rb -> -> (da & db & Ha & Hb & Hle & Hlt).
    exists (score_of da), (score_of db).
    rewrite (score_event_score t a da Ha) by lia.
    rewrite (score_event_score t b db Hb) by lia.
    repeat split. apply score_of_monotone; lia.
  - apply Forall_map. apply Forall_forall. intros e _ Hd.
    cbn [r_event] in Hd.
    rewrite (score_event_score t e 0 Hd)
      by (unfold NEARBY_EVENT_WINDOW_MS; lia).
    reflexivity.
Qed.

(* ================================================================== *)
(** * Properties of the report and screenshot helpers *)

(** X10.  Replaying a processed event gives back the numeric type of the
    raw record it came from when that type is one of the six that rrweb
    knows, and DomContentLoaded (0) for every other record, which the
    processor had named ['Unknown']. *)
Theorem eventTypeToNumber_inverts_eventTypeMap :
  forall t,
    eventTypeToNumber (name_or_unknown eventTypeMap (Some t))
    = if (0 <=? t) && (t <=? 5) then t else 0.
Proof.
  intros t. unfold name_or_unknown, eventTypeMap.
  destruct t as [|p|p]; try reflexivity;
    repeat (try reflexivity; destruct p as [p|p|]).
Qed.

Lemma length_append s1 s2 :
  String.length (String.append s1 s2)
  = (String.length s1 + String.length s2)%nat.
Proof. induction s1 as [|c s1 IH]; cbn; [reflexivity|]. now rewrite IH. Qed.

Lemma length_substring_0 n s :
  String.length (substring 0 n s) = Nat.min n (String.length s).
Proof.
  revert s. induction n as [|n IH]; intros s.
  - destruct s; reflexivity.
  - destruct s as [|c s]; [reflexivity|]. cbn. now rewrite IH.
Qed.

Lemma substring_0_append n s s' :
  (n <= String.length s)%nat ->
  substring 0 n (String.append s s') = substring 0 n s.
Proof.
  revert s. induction n as [|n IH]; intros s Hn.
  - destruct s; destruct s'; reflexivity.
  - destruct s as [|c s]; [cbn in Hn; lia|].
    cbn. rewrite IH by (cbn in Hn; lia). reflexivity.
Qed.

Lemma substring_0_idem n s :
  substring 0 n (substring 0 n s) = substring 0 n s.
Proof.
  revert s. induction n as [|n IH]; intros s.
  - destruct s; reflexivity.
  - destruct s as [|c s]; [reflexivity|]. cbn. now rewrite IH.
Qed.

(** X11.  A truncated string is the text itself when it has at most
    [maxLength] characters, and otherwise its first [maxLength]
    characters followed by three dots; so it never has more than
    [maxLength + 3] characters and always starts like the text. *)
Theorem truncateString_bounds :
  forall str maxLength,
    0 <= maxLength ->
    (Z.of_nat (String.length str) <= maxLength ->
     truncateString str maxLength = str)
    /\ (maxLength < Z.of_nat (String.length str) ->
        truncateString str maxLength
        = String.append (substring 0 (Z.to_nat maxLength) str) "...")
    /\ Z.of_nat (String.length (truncateString str maxLength))
       <= maxLength + 3
    /\ substring 0
         (Nat.min (String.length str) (Z.to_nat maxLength))
         (truncateString str maxLength)
       = substring 0 (Nat.min (String.length str) (Z.to_nat maxLength)) str.
Proof.
  intros str maxLength Hmax. unfold truncateString.
  destruct (String.eqb_spec str "") as [->|Hne].
  { cbn. repeat split; try reflexivity; try lia. }
  destruct (Z.leb_spec (Z.of_nat (String.length str)) maxLength)
    as [Hle|Hgt].
  - repeat split; try reflexivity; lia.
  - split; [lia|]. split; [reflexivity|]. split.
    + rewrite length_append, length_substring_0. cbn [String.length]. lia.
    + replace (Nat.min (String.length str) (Z.to_nat maxLength))
        with (Z.to_nat maxLength) by lia.
      rewrite substring_0_append
        by (rewrite length_substring_0; lia).
      apply substring_0_idem.
Qed.

Lemma truncateString_bounds_witness :
  0 <= 5
  /\ truncateString "Add to basket" 5 = "Add t..."
  /\ Z.of_nat (String.length (truncateString "Add to basket" 5)) <= 5 + 3.
Proof.
  split; [lia|]. split; [reflexivity|].
  apply (truncateString_bounds "Add to basket" 5). lia.
Defined.

Lemma StronglySorted_app_inv {A} (R : A -> A -> Prop) l1 l2 :
  StronglySorted R (l1 ++ l2) ->
  forall a b, In a l1 -> In b l2 -> R a b.
Proof.
  induction l1 as [|x l1 IH]; intros Hs a b Ha Hb; [contradiction|].
  cbn in Hs. inversion Hs as [|? ? Hs' Hfa]; subst.
  destruct Ha as [->|Ha].
  - rewrite Forall_forall in Hfa. apply Hfa, in_or_app. right. exact Hb.
  - apply IH; assumption.
Qed.

Lemma StronglySorted_app_l {A} (R : A -> A -> Prop) l1 l2 :
  StronglySorted R (l1 ++ l2) -> StronglySorted R l1.
Proof.
  induction l1 as [|x l1 IH]; intros Hs; [constructor|].
  cbn in Hs. inversion Hs as [|? ? Hs' Hfa]; subst.
  constructor; [apply IH, Hs'|].
  apply Forall_app in Hfa. tauto.
Qed.

(** X12.  The selected sessions are [maxSessions] of the sessions (all of
    them when there are fewer), in descending order of their number of
    events, and no session left out has more events than a selected
    one. *)
Theorem selectRelevantSessions_takes_the_largest :
  forall sessions maxSessions,
    let selected := selectRelevantSessions sessions maxSessions in
    List.length selected = Nat.min maxSessions (List.length sessions)
    /\ StronglySorted
         (fun a b =>
            (List.length (ps_events b) <= List.length (ps_events a))%nat)
         selected
    /\ exists rest,
         Permutation sessions (selected ++ rest)
         /\ forall a b,
              In a selected -> In b rest ->
              (List.length (ps_events b) <= List.length (ps_events a))%nat.
Proof.
  intros sessions k selected. subst selected.
  unfold selectRelevantSessions.
  set (cmp := fun a b : PostHogSession =>
                Z.of_nat (List.length (ps_events b))
                - Z.of_nat (List.length (ps_events a))).
  assert (Hs : StronglySorted
                 (fun a b =>
                    (List.length (ps_events b)
                     <= List.length (ps_events a))%nat)
                 (sort cmp sessions)).
  { apply (StronglySorted_weaken
             (fun a b => - Z.of_nat (List.length (ps_events a))
                         <= - Z.of_nat (List.length (ps_events b)))).
    - cbv beta. intros; lia.
    - apply sort_sorted. intros a b _ _. unfold cmp. lia. }
  rewrite <- (firstn_skipn k (sort cmp sessions)) in Hs.
  split; [|split].
  - rewrite length_firstn, (Permutation_length (sort_perm cmp sessions)).
    reflexivity.
  - apply (StronglySorted_app_l _ _ _ Hs).
  - exists (skipn k (sort cmp sessions)). split.
    + rewrite firstn_skipn. symmetry. apply sort_perm.
    + apply (StronglySorted_app_inv _ _ _ Hs).
Qed.

(* ================================================================== *)
(** * Sessions of external events *)

Lemma has_char_append c s1 s2 :
  has_char c (String.append s1 s2) = has_char c s1 || has_char c s2.
Proof.
  induction s1 as [|c1 s1 IH]; cbn; [reflexivity|].
  rewrite IH, orb_assoc. reflexivity.
Qed.

Lemma string_of_uint_no_underscore d :
  has_char "_" (NilEmpty.string_of_uint d) = false.
Proof. induction d; cbn; auto. Qed.

Lemma string_of_Z_no_underscore z : has_char "_" (string_of_Z z) = false.
Proof.
  unfold string_of_Z, NilZero.string_of_int, NilZero.string_of_uint.
  destruct (Z.to_int z) as [d|d]; destruct d; cbn;
    auto using string_of_uint_no_underscore.
Qed.

Lemma string_of_number_no_underscore n :
  has_char "_" (string_of_number n) = false.
Proof.
  destruct n; [apply string_of_Z_no_underscore|reflexivity].
Qed.

Lemma string_of_Z_inj a b : string_of_Z a = string_of_Z b -> a = b.
Proof.
  unfold string_of_Z. intros H.
  assert (Hnz : forall z, Z.to_int z <> Decimal.Pos Decimal.Nil
                          /\ Z.to_int z <> Decimal.Neg Decimal.Nil).
  { intros z. destruct z; cbn; split; try discriminate;
      intros E; inversion E as [E'];
      apply (DecimalPos.Unsigned.to_uint_nonnil _ E'). }
  apply (f_equal NilZero.int_of_string) in H.
  rewrite !NilZero.isi in H by apply Hnz.
  inversion H as [H']. apply (f_equal Z.of_int) in H'.
  rewrite !DecimalZ.of_to in H'. exact H'.
Qed.

(** A key splits in one way only into a user and a time. *)
Lemma key_split a a' s s' :
  has_char "_" s = false -> has_char "_" s' = false ->
  String.append a (String.append "_" s)
  = String.append a' (String.append "_" s') ->
  s = s'.
Proof.
  intros Hs Hs'. revert a'.
  induction a as [|c a IH]; intros a' H.
  - destruct a' as [|c' a']; cbn in H.
    + inversion H. reflexivity.
    + inversion H; subst. rewrite has_char_append in Hs.
      cbn in Hs. rewrite orb_true_r in Hs. discriminate.
  - destruct a' as [|c' a']; cbn in H.
    + inversion H; subst. rewrite has_char_append in Hs'.
      cbn in Hs'. rewrite orb_true_r in Hs'. discriminate.
    + inversion H. eapply IH; eassumption.
Qed.

Lemma prefix_append a b : prefix a (String.append a b) = true.
Proof.
  induction a as [|c a IH]; cbn; [destruct b; reflexivity|].
  destruct (ascii_dec c c); [exact IH|contradiction].
Qed.

Lemma consecutive_snoc {A} (l : list A) e d :
  l <> [] -> consecutive (l ++ [e]) = consecutive l ++ [(last l d, e)].
Proof.
  unfold consecutive. induction l as [|a l IH]; intros Hne;
    [contradiction|].
  destruct l as [|b l]; [reflexivity|].
  cbn [app tl combine]. f_equal.
  apply (IH ltac:(discriminate)).
Qed.

Section GroupingFacts.

Variable D : string -> option Z.

Lemma chain_first_le_last a l d ta :
  Forall (fun p => follows D (fst p) (snd p)) (consecutive (a :: l)) ->
  time_of D a = Some ta ->
  exists tl, time_of D (last (a :: l) d) = Some tl /\ ta <= tl.
Proof.
  revert a ta. induction l as [|b l IH]; intros a ta Hch Ha.
  - exists ta. split; [exact Ha|lia].
  - unfold consecutive in Hch. cbn [tl combine] in Hch.
    inversion Hch as [|? ? Hab Hrest]; subst.
    destruct Hab as (ta' & tb & Ha' & Hb & Hgap). cbn [fst snd] in *.
    rewrite Ha in Ha'. inversion Ha'; subst ta'.
    destruct (IH b tb Hrest Hb) as (tl & Hl & Hle).
    exists tl. split; [exact Hl|lia].
Qed.

Lemma join_session_None sessions e :
  join_session D sessions e = None ->
  Forall (fun g =>
            prefix (distinct_id e) (fst g)
            && within_timeout (time_of D e)
                 (time_of D (last (snd g) e)) = false)
    sessions.
Proof.
  induction sessions as [|[k evs] rest IH]; intros H; [constructor|].
  cbn [join_session] in H.
  destruct (prefix (distinct_id e) k && _) eqn:Eg; [discriminate|].
  destruct (join_session D rest e); [discriminate|].
  constructor; [exact Eg|apply IH; reflexivity].
Qed.

Lemma join_session_Some sessions e sessions' :
  join_session D sessions e = Some sessions' ->
  exists pre k evs post,
    sessions = pre ++ (k, evs) :: post
    /\ sessions' = pre ++ (k, evs ++ [e]) :: post
    /\ prefix (distinct_id e) k = true
    /\ within_timeout (time_of D e) (time_of D (last evs e)) = true.
Proof.
  revert sessions'.
  induction sessions as [|[k evs] rest IH]; intros sessions' H;
    [discriminate|].
  cbn [join_session] in H.
  destruct (prefix (distinct_id e) k && _) eqn:Eg.
  - inversion H; subst. apply andb_true_iff in Eg as [Hp Hw].
    exists [], k, evs, rest. repeat split; assumption.
  - destruct (join_session D rest e) as [r|] eqn:Er; [|discriminate].
    inversion H; subst.
    destruct (IH r eq_refl) as (pre & k' & evs' & post & -> & -> & Hp & Hw).
    exists ((k, evs) :: pre), k', evs', post. repeat split; assumption.
Qed.

Lemma set_session_fresh sessions k v :
  ~ In k (map fst sessions) ->
  set_session sessions k v = sessions ++ [(k, v)].
Proof.
  induction sessions as [|[k' v'] rest IH]; intros Hn; [reflexivity|].
  cbn [set_session]. destruct (String.eqb_spec k' k) as [E|E].
  - exfalso. apply Hn. left. exact E.
  - cbn. f_equal. apply IH. intros Hin. apply Hn. right. exact Hin.
Qed.

Lemma last_nonempty {A} (l : list A) d d' : l <> [] -> last l d = last l d'.
Proof.
  induction l as [|a l IH]; intros Hne; [contradiction|].
  destruct l as [|b l]; [reflexivity|].
  change (last (b :: l) d = last (b :: l) d'). apply IH. discriminate.
Qed.

Lemma grouped_step sessions done T e t :
  grouped D sessions done T ->
  time_of D e = Some t -> T <= t ->
  grouped D (group_step D sessions e) (done ++ [e]) t.
Proof.
  intros (Hperm & Hok & Hnd & Hseen) Ht HT. unfold group_step, grouped.
  unfold seen_by in *.
  destruct (join_session D sessions e) as [sessions'|] eqn:Ej.
  - destruct (join_session_Some _ _ _ Ej)
      as (pre & k & evs & post & -> & -> & Hp & Hw).
    apply Forall_app in Hok as [Hok1 Hok2].
    inversion Hok2 as [|? ? Hg Hok3]; subst.
    apply Forall_app in Hseen as [Hs1 Hs2].
    inversion Hs2 as [|? ? Hsg Hs3]; subst. cbn [snd] in Hsg.
    unfold group_ok in Hg. cbn [fst snd] in Hg.
    destruct evs as [|first more]; [contradiction|].
    destruct Hg as (Hkey & Hpre & Hch).
    repeat split.
    + rewrite map_app, concat_app in Hperm |- *.
      cbn [map List.concat snd] in Hperm |- *.
      etransitivity; [apply Permutation_app_tail, Hperm|].
      rewrite <- !app_assoc. apply Permutation_app_head.
      apply Permutation_app_head, Permutation_app_comm.
    + apply Forall_app. split; [exact Hok1|].
      constructor; [|exact Hok3].
      unfold group_ok. cbn [fst snd app].
      split; [exact Hkey|]. split.
      * change (first :: more ++ [e]) with ((first :: more) ++ [e]).
        apply Forall_app. split; [exact Hpre|].
        constructor; [exact Hp|constructor].
      * change (first :: more ++ [e]) with ((first :: more) ++ [e]).
        rewrite (consecutive_snoc (first :: more) e e) by discriminate.
        apply Forall_app. split; [exact Hch|].
        constructor; [|constructor]. cbn [fst snd].
        rewrite Forall_forall in Hsg.
        destruct (Hsg (last (first :: more) e)) as (tl & Hl & Hle).
        { destruct (exists_last (l := first :: more) ltac:(discriminate))
            as (l' & a & E).
          rewrite E, last_last. apply in_or_app. right. left. reflexivity. }
        exists tl, t. repeat split; try assumption; try lia.
        unfold within_timeout in Hw. rewrite Ht, Hl in Hw.
        apply Z.ltb_lt in Hw. exact Hw.
    + rewrite map_app in Hnd |- *. exact Hnd.
    + apply Forall_app. split.
      * eapply Forall_impl; [|exact Hs1]. cbv beta. intros g Hg.
        eapply Forall_impl; [|exact Hg]. cbv beta.
        intros x (tx & Hx & Hxle). exists tx. split; [exact Hx|lia].
      * constructor.
        -- cbn [snd]. apply Forall_app. split.
           ++ eapply Forall_impl; [|exact Hsg]. cbv beta.
              intros x (tx & Hx & Hxle). exists tx. split; [exact Hx|lia].
           ++ constructor; [|constructor]. exists t. split; [exact Ht|lia].
        -- eapply Forall_impl; [|exact Hs3]. cbv beta. intros g Hg.
           eapply Forall_impl; [|exact Hg]. cbv beta.
           intros x (tx & Hx & Hxle). exists tx. split; [exact Hx|lia].
  - pose proof (join_session_None _ _ Ej) as Hnone.
    assert (Hfresh : ~ In (session_key D e) (map fst sessions)).
    { intros Hin. apply in_map_iff in Hin as ([k evs] & Hk & Hin).
      cbn [fst] in Hk. subst k.
      rewrite Forall_forall in Hok, Hnone, Hseen.
      specialize (Hok _ Hin). specialize (Hnone _ Hin).
      specialize (Hseen _ Hin). cbn [fst snd] in *.
      unfold group_ok in Hok. cbn [fst snd] in Hok.
      destruct evs as [|first more]; [contradiction|].
      destruct Hok as (Hkey & _ & Hch).
      rewrite Forall_forall in Hseen.
      destruct (Hseen first ltac:(left; reflexivity)) as (tf & Hf & _).
      destruct (chain_first_le_last first more e tf Hch Hf)
        as (tl & Hl & Hle).
      destruct (Hseen (last (first :: more) e)) as (tl' & Hl' & Hle').
      { destruct (exists_last (l := first :: more) ltac:(discriminate))
          as (l' & a & E).
        rewrite E, last_last. apply in_or_app. right. left. reflexivity. }
      rewrite Hl in Hl'. inversion Hl'; subst tl'.
      unfold session_key in Hkey. rewrite Ht, Hf in Hkey.
      cbn [string_of_number] in Hkey.
      apply key_split in Hkey; try apply string_of_Z_no_underscore.
      apply string_of_Z_inj in Hkey. subst tf.
      unfold session_key in Hnone.
      rewrite prefix_append in Hnone. cbn [andb] in Hnone.
      unfold within_timeout in Hnone. rewrite Ht, Hl in Hnone.
      apply Z.ltb_ge in Hnone. unfold SESSION_TIMEOUT_MS in Hnone. lia. }
    rewrite (set_session_fresh _ _ _ Hfresh).
    repeat split.
    + rewrite map_app, concat_app. cbn [map List.concat snd app].
      rewrite ?app_nil_r. apply Permutation_app_tail. exact Hperm.
    + apply Forall_app. split; [exact Hok|].
      constructor; [|constructor]. unfold group_ok. cbn [fst snd].
      split; [reflexivity|]. split.
      * constructor; [apply prefix_append|constructor].
      * constructor.
    + rewrite map_app. cbn [map fst].
      apply NoDup_app; [exact Hnd|repeat constructor; intros []|].
      intros k Hin [<-|[]]. exact (Hfresh Hin).
    + apply Forall_app. split.
      * eapply Forall_impl; [|exact Hseen]. cbv beta. intros g Hg.
        eapply Forall_impl; [|exact Hg]. cbv beta.
        intros x (tx & Hx & Hxle). exists tx. split; [exact Hx|lia].
      * constructor; [|constructor]. cbn [snd].
        constructor; [|constructor]. exists t. split; [exact Ht|lia].
Qed.

Lemma grouped_fold l :
  forall sessions done T,
    StronglySorted (fun a b => num_or0 (time_of D a)
                               <= num_or0 (time_of D b)) l ->
    Forall (fun e => time_of D e <> None) l ->
    Forall (fun e => T <= num_or0 (time_of D e)) l ->
    grouped D sessions done T ->
    exists T',
      grouped D (fold_left (group_step D) l sessions) (done ++ l) T'.
Proof.
  induction l as [|e l IH]; intros sessions done T Hs Hp HT Hg.
  - exists T. rewrite app_nil_r. exact Hg.
  - inversion Hs as [|? ? Hs' Hfa]; subst.
    inversion Hp as [|? ? He Hp']; subst.
    inversion HT as [|? ? HTe HT']; subst.
    destruct (time_of D e) as [t|] eqn:Et; [|contradiction].
    cbn [num_or0] in HTe, Hfa.
    cbn [fold_left].
    destruct (IH (group_step D sessions e) (done ++ [e]) t Hs' Hp')
      as [T' HT''].
    + exact Hfa.
    + apply (grouped_step sessions done T e t Hg Et HTe).
    + exists T'. rewrite <- app_assoc in HT''. exact HT''.
Qed.

End GroupingFacts.

(** X13.  When every timestamp parses, grouping puts every event into
    exactly one session: the sessions together hold the events, each
    once; every session is named after the user and time of its first
    event, holds only events of users whose identifier is a prefix of
    that name, and has each event follow the one before it by less than
    30 minutes; no two sessions share a name. *)
Theorem groupEventsBySession_partitions :
  forall Date_getTime events,
    Forall (fun e => time_of Date_getTime e <> None) events ->
    let sessions := groupEventsBySession Date_getTime events in
    Permutation events (List.concat (map snd sessions))
    /\ Forall (group_ok Date_getTime) sessions
    /\ NoDup (map fst sessions).
Proof.
  intros D events Hparse sessions. subst sessions.
  unfold groupEventsBySession.
  destruct events as [|e0 rest]; [repeat split; constructor|].
  set (events := e0 :: rest) in *.
  set (sorted := sort (by_time D) events).
  assert (Hperm : Permutation sorted events) by apply sort_perm.
  assert (Hparse' : Forall (fun e => time_of D e <> None) sorted).
  { rewrite Forall_forall in *. intros e He. apply Hparse.
    apply (Permutation_in _ Hperm), He. }
  assert (Hsorted : StronglySorted
                      (fun a b => num_or0 (time_of D a)
                                  <= num_or0 (time_of D b)) sorted).
  { apply sort_sorted. intros a b Ha Hb.
    rewrite Forall_forall in Hparse. unfold by_time.
    pose proof (Hparse a Ha). pose proof (Hparse b Hb).
    destruct (time_of D a), (time_of D b); try contradiction.
    reflexivity. }
  destruct sorted as [|s0 srest] eqn:Es.
  { apply Permutation_nil in Hperm. discriminate. }
  destruct (grouped_fold D (s0 :: srest) [] []
              (num_or0 (time_of D s0)) Hsorted Hparse')
    as (T' & Hp & Hok & Hnd & _).
  - pose proof (StronglySorted_bounds
                  (fun e => num_or0 (time_of D e)) s0 s0 srest Hsorted)
      as Hb.
    eapply Forall_impl; [|exact Hb]. cbv beta. intros; lia.
  - repeat split; constructor.
  - cbn [app] in Hp. repeat split; try assumption.
    rewrite <- Hp. symmetry. exact Hperm.
Qed.

Lemma groupEventsBySession_partitions_witness :
  Forall (fun e => time_of decimal_clock e <> None)
    [external_event "ann" "5000"; external_event "bob" "1000";
     external_event "ann" "2000000"; external_event "an" "6000"]
  /\ groupEventsBySession decimal_clock
       [external_event "ann" "5000"; external_event "bob" "1000";
        external_event "ann" "2000000"; external_event "an" "6000"]
     = [("bob_1000", [external_event "bob" "1000"]);
        ("ann_5000", [external_event "ann" "5000"; external_event "an" "6000"]);
        ("ann_2000000", [external_event "ann" "2000000"])]
  /\ NoDup
       (map fst
          (groupEventsBySession decimal_clock
             [external_event "ann" "5000"; external_event "bob" "1000";
              external_event "ann" "2000000"; external_event "an" "6000"])).
Proof.
  split; [repeat constructor; discriminate|].
  split; [reflexivity|].
  apply (groupEventsBySession_partitions decimal_clock
           [external_event "ann" "5000"; external_event "bob" "1000";
            external_event "ann" "2000000"; external_event "an" "6000"]).
  repeat constructor; discriminate.
Defined.

(* ================================================================== *)
(** * Display of configuration values *)

(** X14.  The display of a value whose key contains API_KEY, SECRET or
    PASSWORD depends on the first five characters and on the length of
    the value only: two values that agree on these are displayed alike,
    so nothing else of a secret reaches the log. *)
Theorem formatSensitiveValue_shows_prefix_and_length_only :
  forall key v1 v2,
    includes key "API_KEY" || includes key "SECRET"
    || includes key "PASSWORD" = true ->
    substring 0 5 v1 = substring 0 5 v2 ->
    String.length v1 = String.length v2 ->
    formatSensitiveValue key v1 = formatSensitiveValue key v2.
Proof.
  intros key v1 v2 Hk Hp Hl. unfold formatSensitiveValue.
  rewrite Hk, Hp, Hl. reflexivity.
Qed.

Lemma formatSensitiveValue_shows_prefix_and_length_only_witness :
  formatSensitiveValue "OPENAI_API_KEY" "sk-abcdef1" = "sk-ab... (10 chars)"
  /\ formatSensitiveValue "OPENAI_API_KEY" "sk-abcdef1"
     = formatSensitiveValue "OPENAI_API_KEY" "sk-abXYZ99".
Proof.
  split; [reflexivity|].
  apply (formatSensitiveValue_shows_prefix_and_length_only
           "OPENAI_API_KEY" "sk-abcdef1" "sk-abXYZ99"); reflexivity.
Defined.
